(** * The KMIP server's cryptography engine

    A shallow embedding of [kmip/services/server/crypto/engine.py]
    ([CryptographyEngine]) together with the part of pyca/cryptography that
    the engine's control flow depends on.

    Layout:
    - Python values: byte strings, [None] as [option], exceptions, the
      entropy behind [os.urandom];
    - [enums]: the protocol enumerations the engine dispatches on;
    - [algorithms], [modes], [ciphers], [symmetric_padding], [hashes], [hkdf]:
      the declarations of the cryptography library that the engine reads (key
      sizes, block sizes, the attributes of the mode classes, the padders,
      HKDF);
    - [Backend]: the primitives that stay abstract (the cipher itself, the
      hash function, HMAC, PBKDF2, the counter-mode KDF, RSA key generation);
    - the methods of [CryptographyEngine];
    - [reference]: a backend small enough to run, for concrete instances;
    - the properties of the engine. *)

From Stdlib Require Import ZArith Lia List.
From Stdlib Require Import Strings.Byte.
From stdpp Require Import base decidable option list finite gmap strings.

Local Open Scope string_scope.
Local Open Scope list_scope.
Local Open Scope Z_scope.

(** ** Python values *)

(** A [bytes] object. *)
Abbreviation bytes := (list byte).

#[global] Instance byte_eq_dec : EqDecision byte := Byte.byte_eq_dec.

(** The byte whose value is [z mod 256] ([six.int2byte], [bytes([z])]). *)
Definition byte_of_Z (z : Z) : byte :=
  match Byte.of_N (Z.to_N (z mod 256)) with
  | Some b => b
  | None => x00
  end.

(** [ord(b)] for a single byte. *)
Definition Z_of_byte (b : byte) : Z := Z.of_N (Byte.to_N b).

(** [len(data)] as a Python integer. *)
Definition len {A} (data : list A) : Z := Z.of_nat (length data).

(** The exceptions an engine call can end with: the two KMIP exceptions the
    engine raises itself (with the message it gives them, the formatted
    argument left as [{0}]), and the built-in and library exceptions that
    reach the caller when the engine does not catch them. *)
Inductive exn : Type :=
| InvalidField (msg : string)
| CryptographicFailure (msg : string)
| ValueError
| TypeError
| AttributeError
| ZeroDivisionError
| UnsupportedAlgorithm
| InternalError.

#[global] Instance exn_eq_dec : EqDecision exn.
Proof. solve_decision. Defined.

(** The kind of an exception, which is what a caller branches on. *)
Definition is_InvalidField (e : exn) : bool :=
  match e with InvalidField _ => true | _ => false end.

Definition is_CryptographicFailure (e : exn) : bool :=
  match e with CryptographicFailure _ => true | _ => false end.


(** The outcome of a call: a returned value or a raised exception. *)
Inductive outcome (A : Type) : Type :=
| Return (a : A)
| Raise (e : exn).
Arguments Return {A} a.
Arguments Raise {A} e.

#[global] Instance outcome_ret : MRet outcome := @Return.
#[global] Instance outcome_bind : MBind outcome := fun A B f m =>
  match m with
  | Return a => f a
  | Raise e => Raise e
  end.
#[global] Instance outcome_fmap : FMap outcome := fun A B f m =>
  match m with
  | Return a => Return (f a)
  | Raise e => Raise e
  end.

(** [try: body / except Exception as e: handler e]. *)
Definition try_except {A} (body : outcome A) (handler : exn -> outcome A) : outcome A :=
  match body with
  | Return a => Return a
  | Raise e => handler e
  end.

(** The operating system's entropy: the bytes [os.urandom] hands out, in the
    order it hands them out. A call consumes a prefix. *)
Definition Entropy : Type := nat -> byte.

(** A computation that may draw random bytes and may raise. *)
Definition Eng (A : Type) : Type := Entropy -> outcome A * Entropy.

#[global] Instance Eng_ret : MRet Eng := fun A a rng => (Return a, rng).
#[global] Instance Eng_bind : MBind Eng := fun A B f m rng =>
  match m rng with
  | (Return a, rng') => f a rng'
  | (Raise e, rng') => (Raise e, rng')
  end.
#[global] Instance Eng_fmap : FMap Eng := fun A B f m rng =>
  match m rng with
  | (Return a, rng') => (Return (f a), rng')
  | (Raise e, rng') => (Raise e, rng')
  end.

(** [raise e] inside a computation. *)
Definition raise {A} (e : exn) : Eng A := fun rng => (Raise e, rng).

(** A call that draws no randomness. *)
Definition lift {A} (m : outcome A) : Eng A := fun rng => (m, rng).

(** [try ... except Exception] around a computation. *)
Definition try_except_eng {A} (body : Eng A) (handler : exn -> Eng A) : Eng A :=
  fun rng =>
    match body rng with
    | (Return a, rng') => (Return a, rng')
    | (Raise e, rng') => handler e rng'
    end.

(** [os.urandom(n)]: [n] fresh bytes; a negative [n] is a [ValueError]. *)
Definition os_urandom (n : Z) : Eng bytes := fun rng =>
  if decide (n < 0) then (Raise ValueError, rng)
  else (Return (map rng (seq 0 (Z.to_nat n))),
        fun i => rng (Z.to_nat n + i)%nat).

(** What a call returns, the entropy it leaves behind forgotten. *)
Definition result {A} (m : Eng A) (rng : Entropy) : outcome A := fst (m rng).

(** Proves the two obligations of a [Finite] instance for an enumeration
    given by the list of its members. *)
Ltac finite_enum :=
  first [ apply (bool_decide_unpack _); vm_compute; exact I
        | let x := fresh in intros x; destruct x;
          apply (bool_decide_unpack _); vm_compute; exact I ].

(** ** Protocol enumerations ([kmip.core.enums]) *)

Module enums.

(** Modelled from the spec: [kmip/core/enums.py] is not among the sources.
    The members are the ones the engine names, together with further members
    of the protocol's enumeration, which stand for the values the engine does
    not support. *)
Inductive CryptographicAlgorithm : Type :=
| DES | TRIPLE_DES | AES | RSA | DSA | ECDSA
| HMAC_SHA1 | HMAC_SHA224 | HMAC_SHA256 | HMAC_SHA384 | HMAC_SHA512 | HMAC_MD5
| DH | ECDH | ECMQV | BLOWFISH | CAMELLIA | CAST5 | IDEA | MARS
| RC2 | RC4 | RC5 | SKIPJACK | TWOFISH | EC.

(** Modelled from the spec: the block cipher modes of [kmip/core/enums.py]. *)
Inductive BlockCipherMode : Type :=
| CBC | ECB | PCBC | CFB | OFB | CTR | CMAC | CCM | GCM | CBC_MAC | XTS
| AES_KEY_WRAP_PADDING | NIST_KEY_WRAP.

(** Modelled from the spec: the padding methods of [kmip/core/enums.py]. *)
Inductive PaddingMethod : Type :=
| NONE | OAEP | PKCS5 | SSL3 | ZEROS | ANSI_X923 | ISO_10126 | PKCS1v15
| X931 | PSS.

(** Modelled from the spec: the hashing algorithms of [kmip/core/enums.py]. *)
Inductive HashingAlgorithm : Type :=
| MD2 | MD4 | MD5 | SHA_1 | SHA_224 | SHA_256 | SHA_384 | SHA_512
| RIPEMD_160 | TIGER | WHIRLPOOL.

(** Modelled from the spec: the derivation methods of [kmip/core/enums.py]. *)
Inductive DerivationMethod : Type :=
| PBKDF2 | HASH | HMAC | ENCRYPT | NIST800_108_C | NIST800_108_F
| NIST800_108_DPI | ASYMMETRIC_KEY.

(** Modelled from the spec: the key format tags of [kmip/core/enums.py]. *)
Inductive KeyFormatType : Type :=
| RAW | OPAQUE | PKCS_1 | PKCS_8 | X_509.

#[global] Instance CryptographicAlgorithm_eq_dec : EqDecision CryptographicAlgorithm.
Proof. solve_decision. Defined.
#[global] Instance BlockCipherMode_eq_dec : EqDecision BlockCipherMode.
Proof. solve_decision. Defined.
#[global] Instance PaddingMethod_eq_dec : EqDecision PaddingMethod.
Proof. solve_decision. Defined.
#[global] Instance HashingAlgorithm_eq_dec : EqDecision HashingAlgorithm.
Proof. solve_decision. Defined.
#[global] Instance DerivationMethod_eq_dec : EqDecision DerivationMethod.
Proof. solve_decision. Defined.
#[global] Instance KeyFormatType_eq_dec : EqDecision KeyFormatType.
Proof. solve_decision. Defined.

#[global, refine] Instance CryptographicAlgorithm_finite : Finite CryptographicAlgorithm :=
  {| enum := [DES; TRIPLE_DES; AES; RSA; DSA; ECDSA; HMAC_SHA1; HMAC_SHA224;
              HMAC_SHA256; HMAC_SHA384; HMAC_SHA512; HMAC_MD5; DH; ECDH; ECMQV;
              BLOWFISH; CAMELLIA; CAST5; IDEA; MARS; RC2; RC4; RC5; SKIPJACK;
              TWOFISH; EC] |}.
Proof. all: finite_enum. Defined.

#[global, refine] Instance BlockCipherMode_finite : Finite BlockCipherMode :=
  {| enum := [CBC; ECB; PCBC; CFB; OFB; CTR; CMAC; CCM; GCM; CBC_MAC; XTS;
              AES_KEY_WRAP_PADDING; NIST_KEY_WRAP] |}.
Proof. all: finite_enum. Defined.

#[global, refine] Instance PaddingMethod_finite : Finite PaddingMethod :=
  {| enum := [NONE; OAEP; PKCS5; SSL3; ZEROS; ANSI_X923; ISO_10126; PKCS1v15;
              X931; PSS] |}.
Proof. all: finite_enum. Defined.

#[global, refine] Instance HashingAlgorithm_finite : Finite HashingAlgorithm :=
  {| enum := [MD2; MD4; MD5; SHA_1; SHA_224; SHA_256; SHA_384; SHA_512;
              RIPEMD_160; TIGER; WHIRLPOOL] |}.
Proof. all: finite_enum. Defined.

End enums.

(** ** pyca/cryptography: the declarations the engine reads

    The library is not part of the repository. What the engine's control flow
    depends on is written out here from the library's Python sources: class
    attributes, constructor checks and the pure-Python padding and HKDF code.
    The primitives the library hands to OpenSSL stay abstract ([Backend]
    below). *)

(** [range(start, stop, step)] for a positive step. *)
Definition py_range (start stop step : Z) : list Z :=
  map (fun i => start + step * Z.of_nat i)
      (seq 0 (Z.to_nat ((stop - start + step - 1) / step))).

(** [data[:n]] and [data[n:]] for a non-negative [n]. *)
Definition slice_to {A} (n : Z) (data : list A) : list A := take (Z.to_nat n) data.
Definition slice_from {A} (n : Z) (data : list A) : list A := drop (Z.to_nat n) data.

(** [b * n]: the byte [b] repeated [n] times (empty for [n <= 0]). *)
Definition byte_times (b : byte) (n : Z) : bytes := replicate (Z.to_nat n) b.

Module algorithms.

(** The cipher classes of [cryptography.hazmat.primitives.ciphers.algorithms]
    the engine registers. *)
Inductive class : Type :=
| TripleDES | AES | Blowfish | Camellia | CAST5 | IDEA | ARC4.

#[global] Instance class_eq_dec : EqDecision class.
Proof. solve_decision. Defined.

(** The members of the class attribute [key_sizes], bit lengths. *)
Definition key_size_list (c : class) : list Z :=
  match c with
  | TripleDES => [64; 128; 192]
  | AES => [128; 192; 256]
  | Blowfish => py_range 32 449 8
  | Camellia => [128; 192; 256]
  | CAST5 => py_range 40 129 8
  | IDEA => [128]
  | ARC4 => [40; 56; 64; 80; 128; 160; 192; 256]
  end.

(** The class attribute [key_sizes], a frozenset. *)
Definition key_sizes (c : class) : gset Z := list_to_set (key_size_list c).

(** The class attribute [block_size], in bits. The block ciphers declare it;
    [ARC4], a stream cipher, declares only [name] and [key_sizes], so reading
    [ARC4.block_size] is an [AttributeError]. *)
Definition block_size (c : class) : outcome Z :=
  match c with
  | AES | Camellia => Return 128
  | TripleDES | Blowfish | CAST5 | IDEA => Return 64
  | ARC4 => Raise AttributeError
  end.

(** An algorithm object: its class and the key it holds. *)
Record instance : Type := { cls : class; key : bytes }.

(** [_verify_key_size(algorithm, key)]. *)
Definition _verify_key_size (c : class) (key : bytes) : outcome bytes :=
  if decide (len key * 8 ∈ key_sizes c) then Return key else Raise ValueError.

(** The constructor [cls(key)]. [TripleDES] first stretches an 8 or 16 byte
    key to 24 bytes; every class then verifies the key size. [len(None)] is a
    [TypeError]. *)
Definition new (c : class) (key : option bytes) : outcome instance :=
  match key with
  | None => Raise TypeError
  | Some key =>
      let key :=
        match c with
        | TripleDES =>
            if decide (len key = 8) then key ++ key ++ key
            else if decide (len key = 16) then key ++ slice_to 8 key
            else key
        | _ => key
        end in
      key ← _verify_key_size c key;
      Return {| cls := c; key := key |}
  end.

End algorithms.

Module modes.

(** The mode classes of [cryptography.hazmat.primitives.ciphers.modes] the
    engine registers. *)
Inductive class : Type := CBC | ECB | OFB | CFB | CTR.

#[global] Instance class_eq_dec : EqDecision class.
Proof. solve_decision. Defined.

(** [hasattr(mode, 'initialization_vector')] on the class. *)
Definition has_initialization_vector (c : class) : bool :=
  match c with CBC | OFB | CFB => true | ECB | CTR => false end.

(** [hasattr(mode, 'nonce')] on the class. *)
Definition has_nonce (c : class) : bool :=
  match c with CTR => true | _ => false end.

(** A mode object: its class and the IV or nonce it was built with ([None]
    for [ECB()]). *)
Record instance : Type := { cls : class; iv_nonce : option bytes }.

(** [mode.validate_for_algorithm(algorithm)]: the IV or nonce must be one
    block long. *)
Definition validate_for_algorithm (m : instance) (a : algorithms.instance) : outcome unit :=
  match iv_nonce m with
  | None => Return tt
  | Some iv =>
      block_size ← algorithms.block_size (algorithms.cls a);
      if decide (len iv * 8 = block_size) then Return tt else Raise ValueError
  end.

End modes.

Module ciphers.

(** [ciphers.Cipher]: an algorithm object and an optional mode object. *)
Record Cipher : Type :=
  { algorithm : algorithms.instance; mode : option modes.instance }.

(** The constructor [Cipher(algorithm, mode, backend)]. *)
Definition new (a : algorithms.instance) (m : option modes.instance) : outcome Cipher :=
  match m with
  | None => Return {| algorithm := a; mode := None |}
  | Some mi =>
      _ ← modes.validate_for_algorithm mi a;
      Return {| algorithm := a; mode := Some mi |}
  end.

End ciphers.

Module symmetric_padding.

(** The padding classes of [cryptography.hazmat.primitives.padding] the
    engine registers. *)
Inductive class : Type := ANSIX923 | PKCS7.

#[global] Instance class_eq_dec : EqDecision class.
Proof. solve_decision. Defined.

(** A padding object: its class and its block size in bits. *)
Record instance : Type := { cls : class; block_size : Z }.

(** The constructor, [_byte_padding_check(block_size)]. *)
Definition new (c : class) (block_size : Z) : outcome instance :=
  if decide (0 <= block_size <= 2040) then
    if decide (block_size mod 8 = 0)
    then Return {| cls := c; block_size := block_size |}
    else Raise ValueError
  else Raise ValueError.

(** [_padding(size)]: [size] bytes of value [size] for PKCS7; [size - 1]
    zero bytes and one byte of value [size] for ANSI X9.23. *)
Definition _padding (c : class) (size : Z) : bytes :=
  match c with
  | PKCS7 => byte_times (byte_of_Z size) size
  | ANSIX923 => byte_times x00 (size - 1) ++ [byte_of_Z size]
  end.

(** [_byte_padding_update(buffer_, data, block_size)]: the new buffer and
    the finished blocks. *)
Definition _byte_padding_update (buffer_ : bytes) (data : option bytes) (block_size : Z)
  : outcome (bytes * bytes) :=
  match data with
  | None => Raise TypeError
  | Some data =>
      let buffer_ := buffer_ ++ data in
      if decide (block_size / 8 = 0) then Raise ZeroDivisionError
      else
        let finished_blocks := len buffer_ / (block_size / 8) in
        let result := slice_to (finished_blocks * (block_size / 8)) buffer_ in
        let buffer_ := slice_from (finished_blocks * (block_size / 8)) buffer_ in
        Return (buffer_, result)
  end.

(** [_byte_padding_pad(buffer_, block_size, paddingfn)]. *)
Definition _byte_padding_pad (buffer_ : bytes) (block_size : Z) (paddingfn : Z -> bytes)
  : outcome bytes :=
  let pad_size := block_size / 8 - len buffer_ in
  Return (buffer_ ++ paddingfn pad_size).

(** The padding check of the unpadder ([Cryptography_check_pkcs7_padding],
    [Cryptography_check_ansix923_padding]) on a buffer of [block_len] bytes:
    the last byte [pad_size] lies in [1..block_len] and the last [pad_size]
    bytes are the padding of that size. *)
Definition _check_padding (c : class) (buffer_ : bytes) (block_len : Z) : bool :=
  let pad_size := Z_of_byte (List.last buffer_ x00) in
  bool_decide (1 <= pad_size <= block_len)
  && bool_decide (slice_from (block_len - pad_size) buffer_ = _padding c pad_size).

(** [_byte_unpadding_update(buffer_, data, block_size)]: the last block is
    held back. *)
Definition _byte_unpadding_update (buffer_ : bytes) (data : option bytes) (block_size : Z)
  : outcome (bytes * bytes) :=
  match data with
  | None => Raise TypeError
  | Some data =>
      let buffer_ := buffer_ ++ data in
      if decide (block_size / 8 = 0) then Raise ZeroDivisionError
      else
        let finished_blocks := Z.max (len buffer_ / (block_size / 8) - 1) 0 in
        let result := slice_to (finished_blocks * (block_size / 8)) buffer_ in
        let buffer_ := slice_from (finished_blocks * (block_size / 8)) buffer_ in
        Return (buffer_, result)
  end.

(** [_byte_unpadding_check(buffer_, block_size, checkfn)]. *)
Definition _byte_unpadding_check (buffer_ : bytes) (block_size : Z)
    (checkfn : bytes -> Z -> bool) : outcome bytes :=
  if decide (len buffer_ ≠ block_size / 8) then Raise ValueError
  else if negb (checkfn buffer_ (block_size / 8)) then Raise ValueError
  else
    let pad_size := Z_of_byte (List.last buffer_ x00) in
    Return (slice_to (len buffer_ - pad_size) buffer_).

(** A padding context ([padder()] or [unpadder()]): the padding object and
    the bytes buffered so far. *)
Record context : Type := { padding : instance; buffer_ : bytes }.

Definition padder (p : instance) : context := {| padding := p; buffer_ := [] |}.
Definition unpadder (p : instance) : context := {| padding := p; buffer_ := [] |}.

(** [padder.update(data)]: the context afterwards and the bytes returned. *)
Definition padder_update (ctx : context) (data : option bytes) : outcome (context * bytes) :=
  '(buf, result) ← _byte_padding_update (buffer_ ctx) data (block_size (padding ctx));
  Return ({| padding := padding ctx; buffer_ := buf |}, result).

(** [padder.finalize()]. *)
Definition padder_finalize (ctx : context) : outcome bytes :=
  _byte_padding_pad (buffer_ ctx) (block_size (padding ctx)) (_padding (cls (padding ctx))).

(** [unpadder.update(data)]. *)
Definition unpadder_update (ctx : context) (data : option bytes) : outcome (context * bytes) :=
  '(buf, result) ← _byte_unpadding_update (buffer_ ctx) data (block_size (padding ctx));
  Return ({| padding := padding ctx; buffer_ := buf |}, result).

(** [unpadder.finalize()]. *)
Definition unpadder_finalize (ctx : context) : outcome bytes :=
  _byte_unpadding_check (buffer_ ctx) (block_size (padding ctx))
    (_check_padding (cls (padding ctx))).

End symmetric_padding.

Module hashes.

(** The hash classes of [cryptography.hazmat.primitives.hashes] the engine
    registers. *)
Inductive class : Type := SHA1 | SHA224 | SHA256 | SHA384 | SHA512 | MD5.

#[global] Instance class_eq_dec : EqDecision class.
Proof. solve_decision. Defined.

(** The class attribute [digest_size], in bytes. *)
Definition digest_size (c : class) : Z :=
  match c with
  | MD5 => 16 | SHA1 => 20 | SHA224 => 28 | SHA256 => 32 | SHA384 => 48
  | SHA512 => 64
  end.

End hashes.

(** ** The primitives behind the library

    What pyca/cryptography hands to OpenSSL: running a cipher, hashing,
    HMAC, PBKDF2, the counter-mode KDF and RSA key generation. Each may raise
    a library exception where the Python call may. *)
Record Backend : Type := {
  (** [e = cipher.encryptor(); e.update(data) + e.finalize()] *)
  cipher_encrypt : ciphers.Cipher -> option bytes -> outcome bytes;
  (** [d = cipher.decryptor(); d.update(data) + d.finalize()] *)
  cipher_decrypt : ciphers.Cipher -> option bytes -> outcome bytes;
  (** [h = hashes.Hash(algorithm()); h.update(data); h.finalize()] *)
  hash_digest : hashes.class -> bytes -> bytes;
  (** [h = hmac.HMAC(key, algorithm()); h.update(data); h.finalize()] *)
  hmac_digest : hashes.class -> bytes -> bytes -> bytes;
  (** [PBKDF2HMAC(algorithm(), length, salt, iterations).derive(key_material)] *)
  pbkdf2_hmac_derive : hashes.class -> Z -> bytes -> Z -> option bytes -> outcome bytes;
  (** [KBKDFHMAC(algorithm(), CounterMode, length, rlen=4, llen=None,
      BeforeFixed, label=None, context=None, fixed).derive(key_material)] *)
  kbkdf_hmac_derive : hashes.class -> Z -> option bytes -> option bytes -> outcome bytes;
  (** [rsa.generate_private_key(public_exponent, key_size)] followed by the
      DER serialisations: the private key as PKCS#8 without encryption and
      the public key as PKCS#1. *)
  rsa_generate_der : Z -> Z -> Eng (bytes * bytes)
}.

(** What the properties below assume of a backend, where they need it. *)

(** Decryption undoes encryption under the same cipher object. *)
Definition decrypt_inverts_encrypt (backend : Backend) : Prop :=
  forall (cipher : ciphers.Cipher) (text encrypted : bytes),
    cipher_encrypt backend cipher (Some text) = Return encrypted ->
    cipher_decrypt backend cipher (Some encrypted) = Return text.

(** A digest has the size its hash class declares. *)
Definition digest_has_declared_size (backend : Backend) : Prop :=
  forall (h : hashes.class) (data : bytes),
    len (hash_digest backend h data) = hashes.digest_size h.

(** An HMAC tag has the size its hash class declares. *)
Definition hmac_has_declared_size (backend : Backend) : Prop :=
  forall (h : hashes.class) (key data : bytes),
    len (hmac_digest backend h key data) = hashes.digest_size h.


Module hkdf.

(** [HKDFExpand._expand]: the blocks [T(1), T(2), ...] of the expansion. The
    [while] loop appends one block per round for as long as
    [digest_size * (len(output) - 1) < length]; [rounds] is the number of
    rounds that leaves, [previous] the block before ([output[-1]]), and
    [counter] the loop counter. *)
Fixpoint _expand_blocks (hmac : bytes -> bytes) (info : bytes) (rounds : nat)
    (previous : bytes) (counter : Z) : list bytes :=
  match rounds with
  | O => []
  | S rounds' =>
      let block := hmac (previous ++ info ++ [byte_of_Z counter]) in
      block :: _expand_blocks hmac info rounds' block (counter + 1)
  end.

(** The number of rounds of the [while] loop of [_expand]: the least [n >= 0]
    with [digest_size * n >= length]. *)
Definition _rounds (digest_size length : Z) : nat :=
  Z.to_nat ((length + digest_size - 1) / digest_size).

(** [HKDF(algorithm, length, salt, info, backend).derive(key_material)]:
    the constructor rejects a length above [255 * digest_size]
    ([ValueError]); a missing salt is a run of zero bytes, a missing info the
    empty string; [derive] rejects key material that is not [bytes]
    ([TypeError]), extracts the pseudorandom key and expands it. *)
Definition derive (backend : Backend) (algorithm : hashes.class) (length : Z)
    (salt info key_material : option bytes) : outcome bytes :=
  let salt := default (byte_times x00 (hashes.digest_size algorithm)) salt in
  let max_length := 255 * hashes.digest_size algorithm in
  if decide (length > max_length) then Raise ValueError
  else
    let info := default [] info in
    match key_material with
    | None => Raise TypeError
    | Some key_material =>
        let prk := hmac_digest backend algorithm salt key_material in
        let output :=
          _expand_blocks (hmac_digest backend algorithm prk) info
            (_rounds (hashes.digest_size algorithm) length) [] 1 in
        Return (slice_to length (concat output))
    end.

End hkdf.

(** ** The engine ([CryptographyEngine]) *)

Import enums.

(** A key dictionary, [{'value': ..., 'format': ...}], with the
    ['public_exponent'] entry the RSA dictionaries carry. *)
Record KeyData : Type := {
  value : bytes;
  format : KeyFormatType;
  public_exponent : option Z
}.

(** The dictionary [encrypt] returns: ['cipher_text'] and, when the engine
    generated it, ['iv_nonce']. *)
Record EncryptResult : Type := {
  cipher_text : bytes;
  iv_nonce : option bytes
}.

(** The registries [__init__] builds. *)
Definition _symmetric_key_algorithms : gmap CryptographicAlgorithm algorithms.class :=
  list_to_map [
    (TRIPLE_DES, algorithms.TripleDES);
    (AES, algorithms.AES);
    (BLOWFISH, algorithms.Blowfish);
    (CAMELLIA, algorithms.Camellia);
    (CAST5, algorithms.CAST5);
    (IDEA, algorithms.IDEA);
    (RC4, algorithms.ARC4)
  ].

Definition _encryption_hash_algorithms : gmap HashingAlgorithm hashes.class :=
  list_to_map [
    (MD5, hashes.MD5);
    (SHA_1, hashes.SHA1);
    (SHA_224, hashes.SHA224);
    (SHA_256, hashes.SHA256);
    (SHA_384, hashes.SHA384);
    (SHA_512, hashes.SHA512)
  ].

Definition _modes : gmap BlockCipherMode modes.class :=
  list_to_map [
    (CBC, modes.CBC);
    (ECB, modes.ECB);
    (OFB, modes.OFB);
    (CFB, modes.CFB);
    (CTR, modes.CTR)
  ].

Definition _symmetric_padding_methods : gmap PaddingMethod symmetric_padding.class :=
  list_to_map [
    (ANSI_X923, symmetric_padding.ANSIX923);
    (PKCS5, symmetric_padding.PKCS7)
  ].

(** [_handle_symmetric_padding(algorithm, plain_text, padding_method,
    undo_padding=False)]. [algorithm] is the algorithm class. *)
Definition _handle_symmetric_padding (algorithm : algorithms.class)
    (plain_text : option bytes) (padding_method : option PaddingMethod)
    (undo_padding : bool) : outcome bytes :=
  match padding_method ≫= (_symmetric_padding_methods !!.) with
  | Some padding_class =>
      block_size ← algorithms.block_size algorithm;
      padding ← symmetric_padding.new padding_class block_size;
      if undo_padding then
        let padder := symmetric_padding.unpadder padding in
        '(padder, plain_text) ← symmetric_padding.unpadder_update padder plain_text;
        rest ← symmetric_padding.unpadder_finalize padder;
        Return (plain_text ++ rest)
      else
        let padder := symmetric_padding.padder padding in
        '(padder, plain_text) ← symmetric_padding.padder_update padder plain_text;
        rest ← symmetric_padding.padder_finalize padder;
        Return (plain_text ++ rest)
  | None =>
      match padding_method with
      | None => Raise (InvalidField "Padding method is required.")
      | Some _ => Raise (InvalidField "Padding method '{0}' is not supported.")
      end
  end.

Section Engine.

Variable backend : Backend.

(** [create_symmetric_key(algorithm, length)]. *)
Definition create_symmetric_key (algorithm : CryptographicAlgorithm) (length : Z)
  : Eng KeyData :=
  match _symmetric_key_algorithms !! algorithm with
  | None =>
      raise (InvalidField
        "The cryptographic algorithm {0} is not a supported symmetric key algorithm.")
  | Some cryptography_algorithm =>
      if decide (length ∉ algorithms.key_sizes cryptography_algorithm) then
        raise (InvalidField
          "The cryptographic length ({0}) is not valid for the cryptographic algorithm ({1}).")
      else
        key_bytes ← os_urandom (length / 8);
        _ ← try_except_eng
              (lift (algorithms.new cryptography_algorithm (Some key_bytes)))
              (fun _ => raise (CryptographicFailure
                 "Invalid bytes for the provided cryptographic algorithm."));
        mret {| value := key_bytes; format := RAW; public_exponent := None |}
  end.

(** [_create_rsa_key_pair(length, public_exponent=65537)]: the public and the
    private key dictionary. *)
Definition _create_rsa_key_pair (length : Z) (public_exponent : Z)
  : Eng (KeyData * KeyData) :=
  '(private_bytes, public_bytes) ←
    try_except_eng
      (rsa_generate_der backend public_exponent length)
      (fun _ => raise (CryptographicFailure
         "An error occurred while generating the RSA key pair. See the server log for more information."));
  let public_key :=
    {| value := public_bytes; format := PKCS_1;
       public_exponent := Some public_exponent |} in
  let private_key :=
    {| value := private_bytes; format := PKCS_8;
       public_exponent := Some public_exponent |} in
  mret (public_key, private_key).

(** The registry of key-pair generators. *)
Definition _asymmetric_key_algorithms
  : gmap CryptographicAlgorithm (Z -> Eng (KeyData * KeyData)) :=
  list_to_map [ (RSA, fun length => _create_rsa_key_pair length 65537) ].

(** [create_asymmetric_key_pair(algorithm, length)]. *)
Definition create_asymmetric_key_pair (algorithm : CryptographicAlgorithm) (length : Z)
  : Eng (KeyData * KeyData) :=
  match _asymmetric_key_algorithms !! algorithm with
  | None =>
      raise (InvalidField
        "The cryptographic algorithm ({0}) is not a supported asymmetric key algorithm.")
  | Some engine_method => engine_method length
  end.

(** [cipher_mode in [BlockCipherMode.CBC, BlockCipherMode.ECB]]. *)
Definition is_padded_mode (cipher_mode : option BlockCipherMode) : bool :=
  bool_decide (cipher_mode ∈ [Some CBC; Some ECB]).

(** [encrypt(encryption_algorithm, encryption_key, plain_text,
    cipher_mode=None, padding_method=None, iv_nonce=None)]. *)
Definition encrypt (encryption_algorithm : option CryptographicAlgorithm)
    (encryption_key plain_text : option bytes)
    (cipher_mode : option BlockCipherMode) (padding_method : option PaddingMethod)
    (iv_nonce : option bytes) : Eng EncryptResult :=
  (* Set up the algorithm *)
  match encryption_algorithm with
  | None => raise (InvalidField "Encryption algorithm is required.")
  | Some encryption_algorithm =>
  match _symmetric_key_algorithms !! encryption_algorithm with
  | None =>
      raise (InvalidField
        "Encryption algorithm '{0}' is not a supported symmetric encryption algorithm.")
  | Some algorithm_class =>
      algorithm ←
        try_except_eng
          (lift (algorithms.new algorithm_class encryption_key))
          (fun _ => raise (CryptographicFailure
             "Invalid key bytes for the specified encryption algorithm."));
      (* Set up the cipher mode if needed *)
      '(mode, iv_nonce, return_iv_nonce) ←
        (if decide (encryption_algorithm = RC4) then
           mret (None, iv_nonce, false)
         else
           match cipher_mode with
           | None => raise (InvalidField "Cipher mode is required.")
           | Some cipher_mode =>
           match _modes !! cipher_mode with
           | None => raise (InvalidField "Cipher mode '{0}' is not a supported mode.")
           | Some mode =>
               if modes.has_initialization_vector mode || modes.has_nonce mode then
                 '(iv_nonce, return_iv_nonce) ←
                   match iv_nonce with
                   | None =>
                       block_size ← lift (algorithms.block_size (algorithms.cls algorithm));
                       iv_nonce ← os_urandom (block_size / 8);
                       mret (iv_nonce, true)
                   | Some iv_nonce => mret (iv_nonce, false)
                   end;
                 mret (Some {| modes.cls := mode; modes.iv_nonce := Some iv_nonce |},
                       Some iv_nonce, return_iv_nonce)
               else
                 mret (Some {| modes.cls := mode; modes.iv_nonce := None |},
                       iv_nonce, false)
           end
           end);
      (* Pad the plain text if needed *)
      plain_text ←
        (if is_padded_mode cipher_mode then
           lift (Some <$> _handle_symmetric_padding algorithm_class plain_text
                            padding_method false)
         else mret plain_text);
      (* Encrypt the plain text *)
      cipher ← lift (ciphers.new algorithm mode);
      cipher_text ← lift (cipher_encrypt backend cipher plain_text);
      if return_iv_nonce : bool then
        mret {| cipher_text := cipher_text; iv_nonce := iv_nonce |}
      else
        mret {| cipher_text := cipher_text; iv_nonce := None |}
  end
  end.

(** [decrypt(decryption_algorithm, decryption_key, cipher_text,
    cipher_mode=None, padding_method=None, iv_nonce=None)]. It draws no
    random bytes. *)
Definition decrypt (decryption_algorithm : option CryptographicAlgorithm)
    (decryption_key cipher_text : option bytes)
    (cipher_mode : option BlockCipherMode) (padding_method : option PaddingMethod)
    (iv_nonce : option bytes) : outcome bytes :=
  (* Set up the algorithm *)
  match decryption_algorithm with
  | None => Raise (InvalidField "Decryption algorithm is required.")
  | Some decryption_algorithm =>
  match _symmetric_key_algorithms !! decryption_algorithm with
  | None =>
      Raise (InvalidField
        "Decryption algorithm '{0}' is not a supported symmetric decryption algorithm.")
  | Some algorithm_class =>
      algorithm ←
        try_except
          (algorithms.new algorithm_class decryption_key)
          (fun _ => Raise (CryptographicFailure
             "Invalid key bytes for the specified decryption algorithm."));
      (* Set up the cipher mode if needed *)
      mode ←
        (if decide (decryption_algorithm = RC4) then Return None
         else
           match cipher_mode with
           | None => Raise (InvalidField "Cipher mode is required.")
           | Some cipher_mode =>
           match _modes !! cipher_mode with
           | None => Raise (InvalidField "Cipher mode '{0}' is not a supported mode.")
           | Some mode =>
               if modes.has_initialization_vector mode || modes.has_nonce mode then
                 match iv_nonce with
                 | None => Raise (InvalidField "IV/nonce is required.")
                 | Some iv_nonce =>
                     Return (Some {| modes.cls := mode; modes.iv_nonce := Some iv_nonce |})
                 end
               else
                 Return (Some {| modes.cls := mode; modes.iv_nonce := None |})
           end
           end);
      (* Decrypt the plain text *)
      cipher ← ciphers.new algorithm mode;
      plain_text ← cipher_decrypt backend cipher cipher_text;
      (* Unpad the plain text if needed *)
      if is_padded_mode cipher_mode then
        _handle_symmetric_padding algorithm_class (Some plain_text) padding_method false
      else Return plain_text
  end
  end.

(** [derive_key(derivation_method, derivation_length, derivation_data=None,
    key_material=None, hash_algorithm=None, salt=None, iteration_count=None,
    encryption_algorithm=None, cipher_mode=None, padding_method=None,
    iv_nonce=None)]. *)
Definition derive_key (derivation_method : DerivationMethod) (derivation_length : Z)
    (derivation_data key_material : option bytes)
    (hash_algorithm : option HashingAlgorithm) (salt : option bytes)
    (iteration_count : option Z)
    (encryption_algorithm : option CryptographicAlgorithm)
    (cipher_mode : option BlockCipherMode) (padding_method : option PaddingMethod)
    (iv_nonce : option bytes) : Eng bytes :=
  if decide (derivation_method = ENCRYPT) then
    result ← encrypt encryption_algorithm key_material derivation_data
               cipher_mode padding_method iv_nonce;
    mret (cipher_text result)
  else
    (* Set up the hashing algorithm *)
    match hash_algorithm with
    | None => raise (InvalidField "Hash algorithm is required.")
    | Some hash_algorithm =>
    match _encryption_hash_algorithms !! hash_algorithm with
    | None =>
        raise (InvalidField "Hash algorithm '{0}' is not a supported hashing algorithm.")
    | Some hashing_algorithm =>
        if decide (derivation_method = HMAC) then
          lift (hkdf.derive backend hashing_algorithm derivation_length salt
                  derivation_data key_material)
        else if decide (derivation_method = HASH) then
          match derivation_data, key_material with
          | Some _, Some _ =>
              raise (InvalidField
                "For hash-based key derivation, specify only derivation data or key material, not both.")
          | Some hashing_data, None =>
              mret (hash_digest backend hashing_algorithm hashing_data)
          | None, Some hashing_data =>
              mret (hash_digest backend hashing_algorithm hashing_data)
          | None, None =>
              raise (InvalidField
                "For hash-based key derivation, derivation data or key material must be specified.")
          end
        else if decide (derivation_method = PBKDF2) then
          match salt with
          | None =>
              raise (InvalidField "For PBKDF2 key derivation, salt must be specified.")
          | Some salt =>
          match iteration_count with
          | None =>
              raise (InvalidField
                "For PBKDF2 key derivation, iteration count must be specified.")
          | Some iteration_count =>
              lift (pbkdf2_hmac_derive backend hashing_algorithm derivation_length
                      salt iteration_count key_material)
          end
          end
        else if decide (derivation_method = NIST800_108_C) then
          lift (kbkdf_hmac_derive backend hashing_algorithm derivation_length
                  derivation_data key_material)
        else
          raise (InvalidField
            "Derivation method '{0}' is not a supported key derivation method.")
    end
    end.

End Engine.

(** ** Message authentication and key wrapping *)

Module WrappingMethod.

(** Modelled from the spec: the wrapping methods of [kmip/core/enums.py],
    which is not among the sources. *)
Inductive t : Type :=
| ENCRYPT | MAC_SIGN | ENCRYPT_THEN_MAC_SIGN | MAC_SIGN_THEN_ENCRYPT | TR_31.

#[global] Instance t_eq_dec : EqDecision t.
Proof. solve_decision. Defined.

End WrappingMethod.

(** The primitives of the library that [mac] and [wrap_key] reach beyond
    those of [Backend], and Python's [str] on an exception. *)
Record KeyedPrimitives : Type := {
  (** [c = cmac.CMAC(algorithm)] past its type check; [c.update(data)];
      [c.finalize()] *)
  cmac_run : algorithms.instance -> option bytes -> outcome bytes;
  (** [keywrap._wrap_core(wrapping_key, a, r)]: the rounds of RFC 3394 *)
  aes_wrap_core : bytes -> bytes -> outcome bytes;
  (** [str(e)] *)
  str : exn -> string
}.

Module hmac.

(** [h = hmac.HMAC(key, algorithm()); h.update(data); h.finalize()]: a key
    or data that is [None] is a [TypeError]. *)
Definition run (backend : Backend) (algorithm : hashes.class) (key data : option bytes)
  : outcome bytes :=
  match key, data with
  | Some key, Some data => Return (hmac_digest backend algorithm key data)
  | _, _ => Raise TypeError
  end.

End hmac.

Module cmac.

(** [c = cmac.CMAC(algorithm); c.update(data); c.finalize()]: the constructor
    takes block ciphers only, the classes that declare a block size, and
    answers anything else with a [TypeError]. *)
Definition run (prims : KeyedPrimitives) (algorithm : algorithms.instance)
    (data : option bytes) : outcome bytes :=
  match algorithms.block_size (algorithms.cls algorithm) with
  | Return _ => cmac_run prims algorithm data
  | Raise _ => Raise TypeError
  end.

End cmac.

Module keywrap.

(** [keywrap.aes_key_wrap(wrapping_key, key_to_wrap, backend)]: the wrapping
    key is 16, 24 or 32 bytes long, the key to wrap at least 16 bytes and a
    multiple of 8 bytes, or the call is a [ValueError]; [len(None)] is a
    [TypeError]. *)
Definition aes_key_wrap (prims : KeyedPrimitives) (wrapping_key key_to_wrap : option bytes)
  : outcome bytes :=
  match wrapping_key with
  | None => Raise TypeError
  | Some wrapping_key =>
      if decide (len wrapping_key ∉ [16; 24; 32]) then Raise ValueError
      else
        match key_to_wrap with
        | None => Raise TypeError
        | Some key_to_wrap =>
            if decide (len key_to_wrap < 16) then Raise ValueError
            else if decide (len key_to_wrap mod 8 ≠ 0) then Raise ValueError
            else aes_wrap_core prims wrapping_key key_to_wrap
        end
  end.

End keywrap.

(** The registry of hash algorithms for MAC operations. *)
Definition _hash_algorithms : gmap CryptographicAlgorithm hashes.class :=
  list_to_map [
    (HMAC_SHA1, hashes.SHA1);
    (HMAC_SHA224, hashes.SHA224);
    (HMAC_SHA256, hashes.SHA256);
    (HMAC_SHA384, hashes.SHA384);
    (HMAC_SHA512, hashes.SHA512);
    (HMAC_MD5, hashes.MD5)
  ].

Section Authentication.

Variable backend : Backend.
Variable prims : KeyedPrimitives.

(** [mac(algorithm, key, data)]. *)
Definition mac (algorithm : CryptographicAlgorithm) (key data : option bytes)
  : outcome bytes :=
  match _hash_algorithms !! algorithm with
  | Some hash_algorithm =>
      try_except
        (hmac.run backend hash_algorithm key data)
        (fun _ => Raise (CryptographicFailure
           "An error occurred while computing an HMAC. See the server log for more information."))
  | None =>
      match _symmetric_key_algorithms !! algorithm with
      | Some cipher_algorithm =>
          try_except
            (instance ← algorithms.new cipher_algorithm key;
             cmac.run prims instance data)
            (fun _ => Raise (CryptographicFailure
               "An error occurred while computing a CMAC. See the server log for more information."))
      | None =>
          Raise (InvalidField
            "The cryptographic algorithm ({0}) is not a supported for a MAC operation.")
      end
  end.

(** [wrap_key(key_material, wrapping_method, key_wrap_algorithm,
    encryption_key)]. *)
Definition wrap_key (key_material : option bytes) (wrapping_method : WrappingMethod.t)
    (key_wrap_algorithm : BlockCipherMode) (encryption_key : option bytes)
  : outcome bytes :=
  if decide (wrapping_method = WrappingMethod.ENCRYPT) then
    if decide (key_wrap_algorithm = NIST_KEY_WRAP) then
      try_except
        (keywrap.aes_key_wrap prims encryption_key key_material)
        (fun e => Raise (CryptographicFailure (str prims e)))
    else
      Raise (InvalidField
        "Encryption algorithm '{0}' is not a supported key wrapping algorithm.")
  else
    Raise (InvalidField
      "Wrapping method '{0}' is not a supported key wrapping method.").

End Authentication.


(** ** A reference backend

    A backend small enough to run: its cipher XORs every byte with a byte
    taken from the key and the IV, its hash folds the input into one byte. It
    offers no security; it has the behaviour the properties below assume of a
    backend (decryption undoes encryption, digests have the size the hash
    declares, PBKDF2 fills a buffer of the requested length), so it shows
    those assumptions can be met and lets the engine be run on concrete
    inputs. *)
Module reference.

Definition xor_bits (a b : bool * (bool * (bool * (bool * (bool * (bool * (bool * bool)))))))
  : bool * (bool * (bool * (bool * (bool * (bool * (bool * bool)))))) :=
  let '(a0, (a1, (a2, (a3, (a4, (a5, (a6, a7))))))) := a in
  let '(b0, (b1, (b2, (b3, (b4, (b5, (b6, b7))))))) := b in
  (xorb a0 b0, (xorb a1 b1, (xorb a2 b2, (xorb a3 b3,
   (xorb a4 b4, (xorb a5 b5, (xorb a6 b6, xorb a7 b7))))))).

Definition xor_byte (a b : byte) : byte :=
  Byte.of_bits (xor_bits (Byte.to_bits a) (Byte.to_bits b)).

(** The byte every byte of the text is XORed with. *)
Definition mask (c : ciphers.Cipher) : byte :=
  let key_byte := hd x00 (algorithms.key (ciphers.algorithm c)) in
  let iv_byte :=
    match ciphers.mode c with
    | Some m => hd x00 (default [] (modes.iv_nonce m))
    | None => x00
    end in
  xor_byte key_byte iv_byte.

(** ECB and CBC take whole blocks only. *)
Definition whole_blocks_only (c : ciphers.Cipher) : bool :=
  match ciphers.mode c with
  | Some m => bool_decide (modes.cls m = modes.ECB ∨ modes.cls m = modes.CBC)
  | None => false
  end.

Definition run (c : ciphers.Cipher) (data : option bytes) : outcome bytes :=
  match data with
  | None => Raise TypeError
  | Some data =>
      block_size ←
        (if whole_blocks_only c
         then algorithms.block_size (algorithms.cls (ciphers.algorithm c))
         else Return 8);
      if decide (len data mod (block_size / 8) = 0)
      then Return (map (xor_byte (mask c)) data)
      else Raise ValueError
  end.

Definition fold (data : bytes) : byte := foldr xor_byte x00 data.

Definition digest (h : hashes.class) (data : bytes) : bytes :=
  byte_times (fold data) (hashes.digest_size h).

Definition hmac (h : hashes.class) (key data : bytes) : bytes :=
  byte_times (fold (key ++ data)) (hashes.digest_size h).

Definition pbkdf2 (h : hashes.class) (length : Z) (salt : bytes) (iterations : Z)
    (key_material : option bytes) : outcome bytes :=
  match key_material with
  | None => Raise TypeError
  | Some key_material =>
      if decide (length < 0) then Raise ValueError
      else if decide (iterations < 1) then Raise InternalError
      else Return (byte_times (fold (key_material ++ salt)) length)
  end.

Definition kbkdf (h : hashes.class) (length : Z) (fixed key_material : option bytes)
  : outcome bytes :=
  match fixed, key_material with
  | None, _ => Raise ValueError
  | _, None => Raise TypeError
  | Some fixed, Some key_material =>
      if decide (0 <= length) then Return (byte_times (fold (key_material ++ fixed)) length)
      else Raise ValueError
  end.

(** Key sizes below 512 bits are refused, as [rsa.generate_private_key]
    refuses them. *)
Definition rsa (public_exponent key_size : Z) : Eng (bytes * bytes) :=
  if decide (key_size < 512) then raise ValueError
  else
    private_bytes ← os_urandom (key_size / 8);
    mret (private_bytes, byte_of_Z public_exponent :: private_bytes).

Definition backend : Backend := {|
  cipher_encrypt := run;
  cipher_decrypt := run;
  hash_digest := digest;
  hmac_digest := hmac;
  pbkdf2_hmac_derive := pbkdf2;
  kbkdf_hmac_derive := kbkdf;
  rsa_generate_der := rsa
|}.

(** An entropy source for the examples: the bytes 0, 1, 2, ... *)
Definition counting : Entropy := fun i => byte_of_Z (Z.of_nat i).

End reference.

(** The remaining primitives, as small: the CMAC folds the key and the data
    into one block and knows no IDEA, the wrap core prepends the initial
    value of RFC 3394. *)
Module reference_keyed.

Definition cmac (a : algorithms.instance) (data : option bytes) : outcome bytes :=
  match data with
  | None => Raise TypeError
  | Some data =>
      if decide (algorithms.cls a = algorithms.IDEA) then Raise UnsupportedAlgorithm
      else
        block_size ← algorithms.block_size (algorithms.cls a);
        Return (byte_times (reference.fold (algorithms.key a ++ data)) (block_size / 8))
  end.

Definition wrap_core (wrapping_key key_to_wrap : bytes) : outcome bytes :=
  Return (byte_times (byte_of_Z 166) 8
          ++ map (reference.xor_byte (hd x00 wrapping_key)) key_to_wrap).

Definition exception_name (e : exn) : string :=
  match e with
  | InvalidField msg | CryptographicFailure msg => msg
  | ValueError => "ValueError"
  | TypeError => "TypeError"
  | AttributeError => "AttributeError"
  | ZeroDivisionError => "ZeroDivisionError"
  | UnsupportedAlgorithm => "UnsupportedAlgorithm"
  | InternalError => "InternalError"
  end.

Definition prims : KeyedPrimitives := {|
  cmac_run := cmac;
  aes_wrap_core := wrap_core;
  str := exception_name
|}.

End reference_keyed.

(** ** The vocabulary of the properties *)

(** An (algorithm, length) pair of the capability set: the algorithm is
    registered and the length is one of its key sizes. *)
Definition symmetric_capability (algorithm : CryptographicAlgorithm) (length : Z) : Prop :=
  exists c, _symmetric_key_algorithms !! algorithm = Some c
            /\ length ∈ algorithms.key_sizes c.

#[global] Instance symmetric_capability_dec algorithm length :
  Decision (symmetric_capability algorithm length).
Proof.
  unfold symmetric_capability.
  destruct (_symmetric_key_algorithms !! algorithm) as [c|] eqn:E.
  - destruct (decide (length ∈ algorithms.key_sizes c)) as [Hin|Hout].
    + left. eauto.
    + right. intros (c' & Hc & Hin). congruence.
  - right. intros (c' & Hc & _). congruence.
Defined.

(** The number of padding bytes for [n] bytes of data and blocks of [bb]
    bytes: always at least one, a whole block when the data is aligned. *)
Definition pad_size (bb n : Z) : Z := bb - n mod bb.


(** ** Concrete inputs for the instances below *)

Module examples.

(** A 16 byte key, the plain text ["ABC"], a 16 byte IV. *)
Definition key16 : bytes := map byte_of_Z [1; 2; 3; 4; 5; 6; 7; 8; 9; 10; 11; 12; 13; 14; 15; 16].
Definition abc : bytes := map byte_of_Z [65; 66; 67].
Definition iv16 : bytes := byte_times x00 16.
Definition block16 : bytes := byte_times "A"%byte 16.

(** What [encrypt] returns on the reference backend for AES, CBC, PKCS5, no
    IV: sixteen bytes of cipher text and the generated IV. *)
Definition encrypted_abc : EncryptResult :=
  Eval vm_compute in
    match result (encrypt reference.backend (Some AES) (Some key16) (Some abc)
                    (Some CBC) (Some PKCS5) None) reference.counting with
    | Return r => r
    | Raise _ => {| cipher_text := []; iv_nonce := None |}
    end.

(** The same in CTR mode, where no padding step is entered. *)
Definition encrypted_abc_ctr : EncryptResult :=
  Eval vm_compute in
    match result (encrypt reference.backend (Some AES) (Some key16) (Some abc)
                    (Some CTR) None None) reference.counting with
    | Return r => r
    | Raise _ => {| cipher_text := []; iv_nonce := None |}
    end.

(** What [decrypt] returns on the reference backend for one block of cipher
    text under AES, CBC, PKCS5. *)
Definition decrypted_block : bytes :=
  Eval vm_compute in
    match decrypt reference.backend (Some AES) (Some key16) (Some block16)
            (Some CBC) (Some PKCS5) (Some iv16) with
    | Return text => text
    | Raise _ => []
    end.

(** What [derive_key] returns on the reference backend for method HMAC, MD5
    and 40 bytes. *)
Definition derived40 : bytes :=
  Eval vm_compute in
    match result (derive_key reference.backend HMAC 40 None (Some abc) (Some MD5) None
                    None None None None None) reference.counting with
    | Return derived => derived
    | Raise _ => []
    end.

End examples.

Import examples.

(** ** Proof tactics *)

(** Unfolds the operations of the two monads. *)
Ltac unfold_eng :=
  unfold result, mbind, mret, fmap, Eng_bind, Eng_ret, Eng_fmap, outcome_bind,
    outcome_ret, outcome_fmap, lift, raise, try_except_eng, try_except in *.

(** Splits a hypothesis about a computation that returned into the cases in
    which it can have returned. *)
Ltac destruct_outcomes H :=
  repeat match type of H with
    | context [match ?x with _ => _ end] =>
        destruct x eqn:?; simpl in H; try discriminate H
    | context [if ?x then _ else _] =>
        destruct x eqn:?; simpl in H; try discriminate H
    end.


(** * Properties *)

(** ** Running computations *)

Lemma len_nonneg {A} (l : list A) : 0 <= len l.
Proof. unfold len. lia. Qed.

Lemma len_app {A} (l k : list A) : len (l ++ k) = len l + len k.
Proof. unfold len. rewrite length_app. lia. Qed.

Lemma len_byte_times b n : 0 <= n -> len (byte_times b n) = n.
Proof. intros Hn. unfold len, byte_times. rewrite length_replicate. lia. Qed.

Lemma len_slice_to {A} n (l : list A) : 0 <= n <= len l -> len (slice_to n l) = n.
Proof. unfold len, slice_to. intros Hn. rewrite length_take. lia. Qed.

(** [os.urandom(n)] returns exactly [n] bytes, the next [n] of the entropy. *)
Lemma os_urandom_returns n rng :
  0 <= n ->
  os_urandom n rng
  = (Return (map rng (seq 0 (Z.to_nat n))), fun i => rng (Z.to_nat n + i)%nat)
  /\ len (map rng (seq 0 (Z.to_nat n))) = n.
Proof.
  intros Hn. unfold os_urandom. destruct (decide (n < 0)); [lia|].
  split; [done|]. unfold len. rewrite length_map, length_seq. lia.
Qed.

(** ** The registry of symmetric algorithms *)

(** Every legal key size is a positive multiple of eight bits. *)
Lemma key_sizes_whole_bytes c length :
  length ∈ algorithms.key_sizes c -> 0 < length /\ length mod 8 = 0.
Proof.
  unfold algorithms.key_sizes. rewrite elem_of_list_to_set.
  revert length. apply Forall_forall.
  destruct c; apply (bool_decide_unpack _); vm_compute; exact I.
Qed.

(** A key of [length / 8] bytes is accepted by the constructor of an
    algorithm that lists [length] among its key sizes. *)
Lemma algorithms_new_accepts c length (key : bytes) :
  length ∈ algorithms.key_sizes c -> len key = length / 8 ->
  exists a, algorithms.new c (Some key) = Return a /\ algorithms.cls a = c.
Proof.
  intros Hin Hlen.
  destruct (key_sizes_whole_bytes _ _ Hin) as [Hpos Hmod].
  assert (Hl : len key * 8 = length).
  { rewrite Hlen. rewrite (Z.div_mod length 8) at 2 by lia. lia. }
  assert (Hplain : algorithms._verify_key_size c key = Return key).
  { unfold algorithms._verify_key_size. rewrite Hl. by rewrite decide_True. }
  unfold algorithms.new.
  destruct c; try (rewrite Hplain; simpl; eauto).
  (* TripleDES stretches short keys to 24 bytes *)
  assert (H3 : length = 64 \/ length = 128 \/ length = 192).
  { revert Hin. unfold algorithms.key_sizes. rewrite elem_of_list_to_set. simpl.
    rewrite !elem_of_cons, elem_of_nil. tauto. }
  assert (H192 : (192 : Z) ∈ algorithms.key_sizes algorithms.TripleDES).
  { apply (bool_decide_unpack _). vm_compute. exact I. }
  destruct H3 as [->|[->| ->]].
  - rewrite decide_True by lia.
    unfold algorithms._verify_key_size. rewrite !len_app.
    rewrite decide_True by (replace (len key + (len key + len key)) with 24 by lia; exact H192).
    simpl. eauto.
  - rewrite decide_False by lia. rewrite decide_True by lia.
    unfold algorithms._verify_key_size. rewrite len_app, len_slice_to by lia.
    rewrite decide_True by (replace ((len key + 8) * 8) with 192 by lia; exact H192).
    simpl. eauto.
  - rewrite decide_False by lia. rewrite decide_False by lia.
    rewrite Hplain. simpl. eauto.
Qed.

Section KeyGeneration.

Variable backend : Backend.


End KeyGeneration.

(** ** Padding *)

(** The block size, in bits, of a registered algorithm class other than ARC4
    is 64 or 128. *)
Lemma block_size_cases c bs :
  algorithms.block_size c = Return bs -> c <> algorithms.ARC4 /\ (bs = 64 \/ bs = 128).
Proof. destruct c; simpl; intros H; inversion H; split; (discriminate || auto). Qed.

Lemma len_padding c size : 1 <= size -> len (symmetric_padding._padding c size) = size.
Proof.
  intros Hs. destruct c; simpl.
  - rewrite len_app, len_byte_times by lia. unfold len. simpl. lia.
  - apply len_byte_times. lia.
Qed.

Lemma pad_size_bounds bb n : 0 < bb -> 1 <= pad_size bb n <= bb.
Proof. intros Hb. unfold pad_size. pose proof (Z.mod_pos_bound n bb Hb). lia. Qed.

Lemma pad_size_aligned bb n : 0 < bb -> (n + pad_size bb n) mod bb = 0.
Proof.
  intros Hb. unfold pad_size.
  replace (n + (bb - n mod bb)) with (n - n mod bb + 1 * bb) by lia.
  rewrite Z.mod_add by lia. rewrite Zminus_mod_idemp_r.
  rewrite Z.sub_diag. apply Z.mod_0_l. lia.
Qed.

(** [padder.update(data) + padder.finalize()] is the data followed by its
    padding. *)
Lemma padder_update_finalize c bs (data : bytes) :
  0 < bs / 8 ->
  (let p := {| symmetric_padding.cls := c; symmetric_padding.block_size := bs |} in
   '(ctx, out) ← symmetric_padding.padder_update (symmetric_padding.padder p) (Some data);
   rest ← symmetric_padding.padder_finalize ctx;
   Return (out ++ rest))
  = Return (data ++ symmetric_padding._padding c (pad_size (bs / 8) (len data))).
Proof.
  intros Hbb. cbn zeta.
  unfold symmetric_padding.padder_update, symmetric_padding.padder,
    symmetric_padding._byte_padding_update, symmetric_padding.padder_finalize,
    symmetric_padding._byte_padding_pad. simpl.
  rewrite decide_False by lia. simpl.
  set (bb := bs / 8) in *. set (fb := len data / bb).
  assert (Hfb : 0 <= fb * bb <= len data).
  { pose proof (len_nonneg data). subst fb. split.
    - apply Z.mul_nonneg_nonneg; [apply Z.div_pos|]; lia.
    - rewrite Z.mul_comm. apply Z.mul_div_le. lia. }
  f_equal. unfold slice_to, slice_from.
  rewrite app_assoc, take_drop. f_equal. f_equal.
  unfold pad_size. f_equal.
  unfold len at 1. rewrite length_drop.
  rewrite (Z.mod_eq (len data) bb) by lia. fold fb. unfold len in *. lia.
Qed.

(** [_handle_symmetric_padding] without [undo_padding] appends the padding
    of a registered padding method to the text. *)
Lemma handle_symmetric_padding_pads c bs pm pc (data : bytes) :
  algorithms.block_size c = Return bs ->
  _symmetric_padding_methods !! pm = Some pc ->
  _handle_symmetric_padding c (Some data) (Some pm) false
  = Return (data ++ symmetric_padding._padding pc (pad_size (bs / 8) (len data))).
Proof.
  intros Hbs Hpm. unfold _handle_symmetric_padding. simpl. rewrite Hpm, Hbs. simpl.
  destruct (block_size_cases _ _ Hbs) as [_ Hcases].
  assert (Hnew : symmetric_padding.new pc bs
                 = Return {| symmetric_padding.cls := pc; symmetric_padding.block_size := bs |}).
  { unfold symmetric_padding.new.
    destruct Hcases as [-> | ->]; reflexivity. }
  rewrite Hnew. simpl.
  assert (Hbb : 0 < bs / 8) by (destruct Hcases as [-> | ->]; reflexivity).
  exact (padder_update_finalize pc bs data Hbb).
Qed.

(** A missing or unregistered padding method is an InvalidField, whatever
    the algorithm class and the text. *)
Lemma handle_symmetric_padding_unsupported c text pm undo :
  pm ≫= (_symmetric_padding_methods !!.) = None ->
  exists msg, _handle_symmetric_padding c text pm undo = Raise (InvalidField msg).
Proof.
  intros Hpm. unfold _handle_symmetric_padding. rewrite Hpm.
  destruct pm; eauto.
Qed.

(** ** Undoing the padding *)

Lemma Z_of_byte_of_Z z : 0 <= z < 256 -> Z_of_byte (byte_of_Z z) = z.
Proof.
  intros Hz. unfold Z_of_byte, byte_of_Z. rewrite Z.mod_small by lia.
  destruct (Byte.of_N (Z.to_N z)) as [b|] eqn:Hb.
  - apply Byte.to_of_N in Hb. rewrite Hb. lia.
  - apply Byte.of_N_None_iff in Hb. lia.
Qed.

(** A padding of at least one byte ends with the byte that holds its size. *)
Lemma padding_ends_with_size c size :
  1 <= size -> exists front, symmetric_padding._padding c size = front ++ [byte_of_Z size].
Proof.
  intros Hs. destruct c; simpl.
  - eauto.
  - unfold byte_times. destruct (Z.to_nat size) as [|n] eqn:Hn; [lia|].
    exists (replicate n (byte_of_Z size)). apply replicate_S_end.
Qed.

(** [unpadder.update(data) + unpadder.finalize()] on a text followed by its
    padding is the text. *)
Lemma unpadder_update_finalize c bs (text : bytes) :
  0 < bs / 8 < 256 ->
  (let p := {| symmetric_padding.cls := c; symmetric_padding.block_size := bs |} in
   '(ctx, out) ← symmetric_padding.unpadder_update (symmetric_padding.unpadder p)
                   (Some (text ++ symmetric_padding._padding c (pad_size (bs / 8) (len text))));
   rest ← symmetric_padding.unpadder_finalize ctx;
   Return (out ++ rest))
  = Return text.
Proof.
  intros Hbb. cbn zeta.
  set (bb := bs / 8) in *.
  set (ps := pad_size bb (len text)).
  set (pad := symmetric_padding._padding c ps).
  assert (Hps : 1 <= ps <= bb) by (apply pad_size_bounds; lia).
  assert (Hlpad : len pad = ps) by (apply len_padding; lia).
  pose proof (len_nonneg text) as Htext.
  assert (Haligned : (len text + ps) mod bb = 0) by (apply pad_size_aligned; lia).
  set (data := text ++ pad).
  assert (Hldata : len data = len text + ps) by (unfold data; rewrite len_app; lia).
  set (fb := len data / bb - 1).
  assert (Hdiv : len data = (fb + 1) * bb).
  { pose proof (Z.div_mod (len data) bb ltac:(lia)) as Hdm.
    rewrite Hldata in Hdm at 3. rewrite Haligned in Hdm. subst fb. lia. }
  assert (Hfb : 0 <= fb) by nia.
  unfold symmetric_padding.unpadder_update, symmetric_padding.unpadder,
    symmetric_padding._byte_unpadding_update, symmetric_padding.unpadder_finalize,
    symmetric_padding._byte_unpadding_check. simpl.
  fold bb. fold ps. fold pad. fold data.
  rewrite decide_False by lia. simpl. fold bb.
  change (len data `div` bb - 1) with fb.
  rewrite Z.max_l by lia.
  set (buffer_ := slice_from (fb * bb) data).
  assert (Hlbuf : len buffer_ = bb).
  { unfold buffer_, slice_from, len. rewrite length_drop. unfold len in Hdiv. nia. }
  rewrite decide_False by lia.
  (* the last byte of the buffer is the last byte of the padding *)
  assert (Hlast : Z_of_byte (List.last buffer_ x00) = ps).
  { destruct (padding_ends_with_size c ps ltac:(lia)) as [front Hfront].
    assert (Hbuf : buffer_ = drop (Z.to_nat (fb * bb)) (text ++ front) ++ [byte_of_Z ps]).
    { unfold buffer_, slice_from, data. fold pad ps. unfold pad. rewrite Hfront.
      rewrite app_assoc. apply drop_app_le.
      assert (len front = ps - 1).
      { apply (f_equal len) in Hfront. fold pad in Hfront.
        rewrite Hlpad, len_app in Hfront. unfold len in *. simpl in Hfront. lia. }
      rewrite length_app. unfold len in *. nia. }
    rewrite Hbuf, List.last_last. apply Z_of_byte_of_Z. lia. }
  assert (Htail : slice_from (bb - ps) buffer_ = pad).
  { unfold buffer_, slice_from. rewrite drop_drop.
    unfold data. apply drop_app_length'. unfold len in *. nia. }
  unfold symmetric_padding._check_padding. rewrite Hlast.
  rewrite bool_decide_true by lia. rewrite Htail.
  rewrite bool_decide_true by reflexivity. simpl.
  f_equal. rewrite Hlbuf. unfold buffer_, slice_to, slice_from.
  rewrite take_take_drop. unfold data. apply take_app_length'.
  unfold len in *. nia.
Qed.

(** [_handle_symmetric_padding] with [undo_padding] undoes what it does
    without: had [decrypt] passed [undo_padding=True], the padding added by
    [encrypt] would have been removed. *)
Theorem handle_symmetric_padding_undo c bs pm pc (text padded : bytes) :
  algorithms.block_size c = Return bs ->
  _symmetric_padding_methods !! pm = Some pc ->
  _handle_symmetric_padding c (Some text) (Some pm) false = Return padded ->
  _handle_symmetric_padding c (Some padded) (Some pm) true = Return text.
Proof.
  intros Hbs Hpm Hpadded.
  rewrite (handle_symmetric_padding_pads c bs pm pc text Hbs Hpm) in Hpadded.
  inversion Hpadded; subst padded; clear Hpadded.
  unfold _handle_symmetric_padding. simpl. rewrite Hpm, Hbs. simpl.
  destruct (block_size_cases _ _ Hbs) as [_ Hcases].
  assert (Hnew : symmetric_padding.new pc bs
                 = Return {| symmetric_padding.cls := pc; symmetric_padding.block_size := bs |}).
  { unfold symmetric_padding.new. destruct Hcases as [-> | ->]; reflexivity. }
  rewrite Hnew. simpl.
  apply (unpadder_update_finalize pc bs text).
  destruct Hcases as [-> | ->]; split; reflexivity.
Qed.

(** ** The reference backend meets the assumptions *)

Lemma xor_byte_involutive m b : reference.xor_byte m (reference.xor_byte m b) = b.
Proof.
  unfold reference.xor_byte. rewrite Byte.to_bits_of_bits.
  rewrite <- (Byte.of_bits_to_bits b) at 2. f_equal.
  destruct (Byte.to_bits m) as (m0 & m1 & m2 & m3 & m4 & m5 & m6 & m7).
  destruct (Byte.to_bits b) as (b0 & b1 & b2 & b3 & b4 & b5 & b6 & b7).
  simpl. by rewrite <- !xorb_assoc, !xorb_nilpotent, !xorb_false_l.
Qed.

Lemma reference_decrypt_inverts_encrypt : decrypt_inverts_encrypt reference.backend.
Proof.
  intros cipher text encrypted. simpl. unfold reference.run.
  unfold mbind, outcome_bind.
  destruct (if reference.whole_blocks_only cipher then _ else _) as [bs|]; [|discriminate].
  destruct (decide (len text mod (bs / 8) = 0)) as [Hal|]; [|discriminate].
  intros H. inversion H; subst encrypted.
  assert (Hlen : len (map (reference.xor_byte (reference.mask cipher)) text) = len text).
  { unfold len. by rewrite length_map. }
  rewrite Hlen, decide_True by done. f_equal.
  rewrite map_map. rewrite <- (map_id text) at 2.
  apply map_ext. intros b. apply xor_byte_involutive.
Qed.

Lemma reference_digest_has_declared_size : digest_has_declared_size reference.backend.
Proof. intros h data. simpl. apply len_byte_times. by destruct h. Qed.

Lemma reference_hmac_has_declared_size : hmac_has_declared_size reference.backend.
Proof. intros h key data. simpl. apply len_byte_times. by destruct h. Qed.


(** ** The cipher pipeline *)

Lemma registered_not_RC4 ea c :
  _symmetric_key_algorithms !! ea = Some c -> ea <> RC4 -> c <> algorithms.ARC4.
Proof.
  intros H Hne. destruct ea; vm_compute in H; try discriminate; try congruence;
  inversion H; discriminate.
Qed.

Lemma registered_RC4 : _symmetric_key_algorithms !! RC4 = Some algorithms.ARC4.
Proof. reflexivity. Qed.

Lemma algorithms_new_cls c key a : algorithms.new c key = Return a -> algorithms.cls a = c.
Proof.
  unfold algorithms.new. destruct key as [k|]; [|discriminate].
  unfold mbind, outcome_bind. intros H.
  destruct (algorithms._verify_key_size c _); inversion H. reflexivity.
Qed.

Lemma ciphers_new_inv a mode cipher :
  ciphers.new a mode = Return cipher ->
  cipher = {| ciphers.algorithm := a; ciphers.mode := mode |}.
Proof.
  unfold ciphers.new, mbind, outcome_bind.
  destruct mode; [destruct (modes.validate_for_algorithm _ _)|];
    intros H; inversion H; reflexivity.
Qed.

Lemma is_padded_mode_true cm :
  is_padded_mode cm = true <-> cm = Some CBC \/ cm = Some ECB.
Proof.
  unfold is_padded_mode. rewrite bool_decide_eq_true.
  rewrite !elem_of_cons, elem_of_nil. tauto.
Qed.

Lemma is_padded_mode_false cm :
  is_padded_mode cm = false <-> cm <> Some CBC /\ cm <> Some ECB.
Proof.
  unfold is_padded_mode. rewrite bool_decide_eq_false.
  rewrite !elem_of_cons, elem_of_nil. tauto.
Qed.

(** ** Keys the algorithms refuse *)

(** A missing key, or a key whose size in bits is not among the key sizes of
    the class, is refused by the constructor. *)
Lemma algorithms_new_rejects c (key : option bytes) :
  (forall k, key = Some k -> len k * 8 ∉ algorithms.key_sizes c) ->
  exists e, algorithms.new c key = Raise e.
Proof.
  intros Hkey. unfold algorithms.new. destruct key as [k|]; [|eauto].
  specialize (Hkey k eq_refl).
  assert (Hplain : algorithms._verify_key_size c k = Raise ValueError).
  { unfold algorithms._verify_key_size. by rewrite decide_False. }
  destruct c; try (rewrite Hplain; simpl; eauto).
  assert (H64 : (64 : Z) ∈ algorithms.key_sizes algorithms.TripleDES)
    by (apply (bool_decide_unpack _); vm_compute; exact I).
  assert (H128 : (128 : Z) ∈ algorithms.key_sizes algorithms.TripleDES)
    by (apply (bool_decide_unpack _); vm_compute; exact I).
  destruct (decide (len k = 8)) as [H8|].
  { exfalso. apply Hkey. by rewrite H8. }
  destruct (decide (len k = 16)) as [H16|].
  { exfalso. apply Hkey. by rewrite H16. }
  rewrite Hplain. simpl. eauto.
Qed.

#[local] Arguments _handle_symmetric_padding : simpl never.
#[local] Arguments algorithms.new : simpl never.
#[local] Arguments ciphers.new : simpl never.
#[local] Arguments os_urandom : simpl never.

Section CipherPipeline.

Variable backend : Backend.

(** C5. [encrypt] with a registered block algorithm and a registered mode that
    takes an IV or nonce: when it returns, the result carries ['iv_nonce']
    exactly when the caller supplied none; a generated IV is the next
    [block_size / 8] bytes of entropy, so exactly one block long, and is the
    one in the result; a supplied IV is the one the cipher runs with and is
    not returned. *)
Theorem encrypt_iv_nonce_generated_iff_absent
    (ea : CryptographicAlgorithm) (c : algorithms.class)
    (key pt : option bytes) (cm : BlockCipherMode) (m : modes.class)
    (pm : option PaddingMethod) (iv : option bytes) (rng : Entropy) (r : EncryptResult) :
  _symmetric_key_algorithms !! ea = Some c -> ea <> RC4 ->
  _modes !! cm = Some m ->
  modes.has_initialization_vector m || modes.has_nonce m = true ->
  result (encrypt backend (Some ea) key pt (Some cm) pm iv) rng = Return r ->
  (is_Some (iv_nonce r) <-> iv = None)
  /\ exists a used text,
      algorithms.new c key = Return a
      /\ cipher_encrypt backend
           {| ciphers.algorithm := a;
              ciphers.mode := Some {| modes.cls := m; modes.iv_nonce := Some used |} |}
           text = Return (cipher_text r)
      /\ match iv with
         | Some supplied => used = supplied /\ iv_nonce r = None
         | None =>
             exists block_size,
               algorithms.block_size c = Return block_size
               /\ used = map rng (seq 0 (Z.to_nat (block_size / 8)))
               /\ iv_nonce r = Some used
               /\ len used = block_size / 8
               /\ len used * 8 = block_size
         end.
Proof.
  intros Hc Hne Hm Hattr Hrun.
  unfold encrypt in Hrun. rewrite Hc in Hrun.
  unfold_eng.
  destruct (algorithms.new c key) as [a|e] eqn:Ha; simpl in Hrun; [|discriminate].
  pose proof (algorithms_new_cls _ _ _ Ha) as Hcls.
  rewrite decide_False in Hrun by done. rewrite Hm, Hattr in Hrun.
  destruct iv as [v|]; simpl in Hrun.
  - destruct_outcomes Hrun.
    all: inversion Hrun; subst r; simpl.
    all: (split; [split; [intros [? ?]; discriminate | discriminate]|]).
    all: exists a, v; eexists; split; [done|].
    all: match goal with
         | H : ciphers.new _ _ = Return _ |- _ => apply ciphers_new_inv in H; subst
         end.
    all: split; [eassumption | done].
  - rewrite Hcls in Hrun.
    destruct (algorithms.block_size c) as [bs|] eqn:Hbs; simpl in Hrun; [|discriminate].
    destruct (block_size_cases _ _ Hbs) as [_ Hcases].
    assert (Hn : 0 <= bs / 8) by (destruct Hcases as [-> | ->]; done).
    destruct (os_urandom_returns (bs / 8) rng Hn) as [Hdraw Hlen].
    rewrite Hdraw in Hrun. simpl in Hrun.
    destruct_outcomes Hrun.
    all: inversion Hrun; subst r; simpl.
    all: (split; [split; [done | eauto]|]).
    all: exists a; eexists; eexists; split; [done|].
    all: match goal with
         | H : ciphers.new _ _ = Return _ |- _ => apply ciphers_new_inv in H; subst
         end.
    all: split; [eassumption |].
    all: exists bs; repeat split; try done.
    all: rewrite Hlen; destruct Hcases as [-> | ->]; done.
Qed.


(** C2 (the code departs from it). [decrypt] in CBC or ECB mode with a
    registered padding method: whenever it returns, what it returns is the
    output of the cipher with the padding of the method appended, so it is at
    least one byte longer than the decrypted data; no padding is removed. *)
Theorem decrypt_padded_mode_appends_padding
    (ea : option CryptographicAlgorithm) (key ct : option bytes)
    (cm : BlockCipherMode) (pm : PaddingMethod) (pc : symmetric_padding.class)
    (iv : option bytes) (returned : bytes) :
  cm = CBC \/ cm = ECB ->
  _symmetric_padding_methods !! pm = Some pc ->
  decrypt backend ea key ct (Some cm) (Some pm) iv = Return returned ->
  exists cipher decrypted block_size,
    cipher_decrypt backend cipher ct = Return decrypted
    /\ algorithms.block_size (algorithms.cls (ciphers.algorithm cipher)) = Return block_size
    /\ returned
       = decrypted
         ++ symmetric_padding._padding pc (pad_size (block_size / 8) (len decrypted))
    /\ len decrypted < len returned.
Proof.
  intros Hcm Hpm Hrun.
  assert (Hpad : is_padded_mode (Some cm) = true).
  { apply is_padded_mode_true. destruct Hcm; subst; auto. }
  unfold decrypt in Hrun.
  destruct ea as [ea|]; [|discriminate].
  destruct (_symmetric_key_algorithms !! ea) as [c|] eqn:Hc; [|discriminate].
  unfold mbind, outcome_bind, try_except in Hrun.
  destruct (algorithms.new c key) as [a|] eqn:Ha; [|discriminate].
  pose proof (algorithms_new_cls _ _ _ Ha) as Hcls.
  destruct (if decide (ea = RC4) then _ else _) as [mode|]; [|discriminate].
  destruct (ciphers.new a mode) as [cipher|] eqn:Hcipher; [|discriminate].
  destruct (cipher_decrypt backend cipher ct) as [d|] eqn:Hd; [|discriminate].
  rewrite Hpad in Hrun.
  assert (Halg : ciphers.algorithm cipher = a).
  { by rewrite (ciphers_new_inv _ _ _ Hcipher). }
  destruct (algorithms.block_size c) as [bs|] eqn:Hbs.
  - rewrite (handle_symmetric_padding_pads c bs pm pc d Hbs Hpm) in Hrun.
    inversion Hrun; subst returned.
    exists cipher, d, bs. rewrite Halg, Hcls. repeat split; try done.
    rewrite len_app, len_padding.
    + destruct (block_size_cases _ _ Hbs) as [_ [-> | ->]];
        pose proof (pad_size_bounds (64 / 8) (len d) eq_refl);
        pose proof (pad_size_bounds (128 / 8) (len d) eq_refl); lia.
    + destruct (block_size_cases _ _ Hbs) as [_ [-> | ->]];
        apply pad_size_bounds; reflexivity.
  - unfold _handle_symmetric_padding in Hrun. simpl in Hrun.
    rewrite Hpm, Hbs in Hrun. discriminate.
Qed.

Lemma handle_symmetric_padding_ARC4 text pm undo :
  exists e, _handle_symmetric_padding algorithms.ARC4 text pm undo = Raise e.
Proof.
  unfold _handle_symmetric_padding.
  destruct (pm ≫= _) as [pc|]; simpl; [eauto|]. destruct pm; eauto.
Qed.

Lemma registered_modes_padded cm :
  cm = CBC \/ cm = ECB -> exists m, _modes !! cm = Some m.
Proof. intros [-> | ->]; eexists; reflexivity. Qed.

(** C1 (the code departs from it). In CBC or ECB mode [decrypt] does not give
    back what [encrypt] was given: whenever [encrypt] returns for a plain text
    [P], decrypting its cipher text under the same key, mode and padding
    method, with the IV it returned, returns [P] followed by two non-empty
    runs of padding. The assumption is that the backend's decryption undoes
    its encryption. *)
Theorem roundtrip_padded_mode_pads_twice
    (ea : CryptographicAlgorithm) (key : option bytes) (P : bytes)
    (cm : BlockCipherMode) (pm : option PaddingMethod) (rng : Entropy)
    (r : EncryptResult) :
  decrypt_inverts_encrypt backend ->
  cm = CBC \/ cm = ECB ->
  result (encrypt backend (Some ea) key (Some P) (Some cm) pm None) rng = Return r ->
  exists pad1 pad2,
    decrypt backend (Some ea) key (Some (cipher_text r)) (Some cm) pm (iv_nonce r)
    = Return (P ++ pad1 ++ pad2)
    /\ 1 <= len pad1 /\ 1 <= len pad2
    /\ decrypt backend (Some ea) key (Some (cipher_text r)) (Some cm) pm (iv_nonce r)
       <> Return P.
Proof.
  intros Hlaw Hcm Hrun.
  assert (Hpad : is_padded_mode (Some cm) = true).
  { apply is_padded_mode_true. destruct Hcm; subst; auto. }
  unfold encrypt in Hrun.
  destruct (_symmetric_key_algorithms !! ea) as [c|] eqn:Hc; [|discriminate].
  unfold_eng.
  destruct (algorithms.new c key) as [a|] eqn:Ha; simpl in Hrun; [|discriminate].
  rewrite Hpad in Hrun.
  destruct (decide (ea = RC4)) as [->|Hne].
  { rewrite registered_RC4 in Hc. inversion Hc; subst c. simpl in Hrun.
    destruct (handle_symmetric_padding_ARC4 (Some P) pm false) as [e He].
    rewrite He in Hrun. discriminate. }
  pose proof (algorithms_new_cls _ _ _ Ha) as Hcls.
  destruct (registered_modes_padded cm Hcm) as (m & Hm).
  rewrite Hm in Hrun.
  (* the padding method is registered and the class has a block size,
     otherwise the padding step of [encrypt] raises *)
  destruct (pm ≫= (_symmetric_padding_methods !!.)) as [pc|] eqn:Hpm; cycle 1.
  { destruct (handle_symmetric_padding_unsupported c (Some P) pm false Hpm) as [msg Hmsg].
    rewrite Hmsg in Hrun. destruct_outcomes Hrun. }
  destruct pm as [pm|]; [|discriminate]. simpl in Hpm.
  destruct (algorithms.block_size c) as [bs|] eqn:Hbs; cycle 1.
  { assert (Hfail : _handle_symmetric_padding c (Some P) (Some pm) false = Raise e).
    { unfold _handle_symmetric_padding. simpl. by rewrite Hpm, Hbs. }
    rewrite Hfail in Hrun. destruct_outcomes Hrun. }
  destruct (block_size_cases _ _ Hbs) as [_ Hcases].
  assert (Hbb : 0 < bs / 8) by (destruct Hcases as [-> | ->]; reflexivity).
  pose proof (handle_symmetric_padding_pads c bs pm pc P Hbs Hpm) as Hpad1.
  set (pad1 := symmetric_padding._padding pc (pad_size (bs / 8) (len P))) in *.
  set (pad2 := symmetric_padding._padding pc (pad_size (bs / 8) (len (P ++ pad1)))).
  assert (Hl1 : len pad1 = pad_size (bs / 8) (len P))
    by (apply len_padding, pad_size_bounds, Hbb).
  assert (Hl2 : len pad2 = pad_size (bs / 8) (len (P ++ pad1)))
    by (apply len_padding, pad_size_bounds, Hbb).
  pose proof (pad_size_bounds (bs / 8) (len P) Hbb).
  pose proof (pad_size_bounds (bs / 8) (len (P ++ pad1)) Hbb).
  assert (Hgoal :
    decrypt backend (Some ea) key (Some (cipher_text r)) (Some cm) (Some pm) (iv_nonce r)
    = Return (P ++ pad1 ++ pad2)).
  { rewrite Hpad1 in Hrun. rewrite Hcls, Hbs in Hrun. simpl in Hrun.
    destruct (os_urandom_returns (bs / 8) rng ltac:(lia)) as [Hdraw _].
    unfold decrypt. rewrite Hc, Ha. simpl. rewrite decide_False by done.
    rewrite Hm, Hpad.
    destruct (modes.has_initialization_vector m || modes.has_nonce m) eqn:Hattr;
      simpl in Hrun.
    - rewrite Hdraw in Hrun. simpl in Hrun.
      destruct (ciphers.new a _) as [cipher|] eqn:Hcipher; simpl in Hrun; [|discriminate].
      destruct (cipher_encrypt backend cipher _) as [encrypted|] eqn:Henc;
        simpl in Hrun; [|discriminate].
      inversion Hrun; subst r. simpl.
      rewrite Hcipher. simpl. rewrite (Hlaw _ _ _ Henc). simpl.
      rewrite (handle_symmetric_padding_pads c bs pm pc (P ++ pad1) Hbs Hpm).
      by rewrite <- app_assoc.
    - destruct (cipher_encrypt backend _ _) as [encrypted|] eqn:Henc;
        simpl in Hrun; [|discriminate].
      inversion Hrun; subst r. simpl.
      rewrite (Hlaw _ _ _ Henc). simpl.
      rewrite (handle_symmetric_padding_pads c bs pm pc (P ++ pad1) Hbs Hpm).
      by rewrite <- app_assoc. }
  exists pad1, pad2. rewrite Hgoal. repeat split; try lia.
  intros Heq. inversion Heq as [Heq'].
  apply (f_equal len) in Heq'. rewrite !len_app in Heq'. lia.
Qed.

(** With a registered padding method the padding step of an RC4 call in CBC
    or ECB mode reads the block size of the RC4 class, which has none. *)
Lemma encrypt_rc4_padded_mode_registered_padding
    (key pt : option bytes) (a : algorithms.instance) (cm : option BlockCipherMode)
    (pm : PaddingMethod) (pc : symmetric_padding.class) (iv : option bytes)
    (rng : Entropy) :
  algorithms.new algorithms.ARC4 key = Return a ->
  is_padded_mode cm = true ->
  _symmetric_padding_methods !! pm = Some pc ->
  result (encrypt backend (Some RC4) key pt cm (Some pm) iv) rng = Raise AttributeError.
Proof.
  intros Ha Hpad Hpm. unfold encrypt. rewrite registered_RC4. unfold_eng.
  rewrite Ha. simpl. rewrite Hpad.
  unfold _handle_symmetric_padding. simpl. rewrite Hpm. reflexivity.
Qed.


(** Outside CBC and ECB the round trip holds: no padding step is entered on
    either side, and decryption undoes encryption. *)
Theorem roundtrip_unpadded_mode
    (ea : CryptographicAlgorithm) (key : option bytes) (P : bytes)
    (cm : option BlockCipherMode) (pm : option PaddingMethod) (rng : Entropy)
    (r : EncryptResult) :
  decrypt_inverts_encrypt backend ->
  cm <> Some CBC -> cm <> Some ECB ->
  result (encrypt backend (Some ea) key (Some P) cm pm None) rng = Return r ->
  decrypt backend (Some ea) key (Some (cipher_text r)) cm pm (iv_nonce r) = Return P.
Proof.
  intros Hlaw Hcbc Hecb Hrun.
  assert (Hpad : is_padded_mode cm = false) by (by apply is_padded_mode_false).
  unfold encrypt in Hrun. unfold decrypt.
  destruct (_symmetric_key_algorithms !! ea) as [c|] eqn:Hc; [|discriminate].
  unfold_eng.
  destruct (algorithms.new c key) as [a|] eqn:Ha; simpl in Hrun; [|discriminate].
  pose proof (algorithms_new_cls _ _ _ Ha) as Hcls.
  rewrite Hpad in *. simpl.
  destruct (decide (ea = RC4)) as [->|Hne]; simpl in Hrun.
  { destruct (cipher_encrypt backend _ _) as [encrypted|] eqn:Henc;
      simpl in Hrun; [|discriminate].
    inversion Hrun; subst r. simpl. by rewrite (Hlaw _ _ _ Henc). }
  destruct cm as [cm|]; [|discriminate].
  destruct (_modes !! cm) as [m|] eqn:Hm; [|discriminate].
  destruct (modes.has_initialization_vector m || modes.has_nonce m) eqn:Hattr;
    simpl in Hrun.
  - rewrite Hcls in Hrun.
    destruct (algorithms.block_size c) as [bs|] eqn:Hbs; simpl in Hrun; [|discriminate].
    destruct (block_size_cases _ _ Hbs) as [_ Hcases].
    assert (Hn : 0 <= bs / 8) by (destruct Hcases as [-> | ->]; done).
    destruct (os_urandom_returns (bs / 8) rng Hn) as [Hdraw _].
    rewrite Hdraw in Hrun. simpl in Hrun.
    destruct (ciphers.new a _) as [cipher|] eqn:Hcipher; simpl in Hrun; [|discriminate].
    destruct (cipher_encrypt backend cipher _) as [encrypted|] eqn:Henc;
      simpl in Hrun; [|discriminate].
    inversion Hrun; subst r. simpl.
    rewrite Hcipher. simpl. by rewrite (Hlaw _ _ _ Henc).
  - destruct (cipher_encrypt backend _ _) as [encrypted|] eqn:Henc;
      simpl in Hrun; [|discriminate].
    inversion Hrun; subst r. simpl. by rewrite (Hlaw _ _ _ Henc).
Qed.

End CipherPipeline.

(** ** Key pairs *)

Section KeyPairs.

Variable backend : Backend.

(** C4 (the code departs from it for key pairs). [create_asymmetric_key_pair]
    with RSA hands the length to the generator unchecked: whatever the
    length, the outcome is the pair of key dictionaries when the generator
    returns and CryptographicFailure when it raises, so an RSA length the
    generator refuses is never reported as InvalidField. *)
Theorem create_asymmetric_key_pair_rsa (length : Z) (rng : Entropy) :
  result (create_asymmetric_key_pair backend RSA length) rng
  = match result (rsa_generate_der backend 65537 length) rng with
    | Return (private_bytes, public_bytes) =>
        Return ({| value := public_bytes; format := PKCS_1;
                   public_exponent := Some 65537 |},
                {| value := private_bytes; format := PKCS_8;
                   public_exponent := Some 65537 |})
    | Raise _ =>
        Raise (CryptographicFailure
          "An error occurred while generating the RSA key pair. See the server log for more information.")
    end.
Proof.
  unfold create_asymmetric_key_pair, _asymmetric_key_algorithms. simpl.
  rewrite lookup_insert_eq. unfold _create_rsa_key_pair. unfold_eng.
  destruct (rsa_generate_der backend 65537 length rng) as [[[private_bytes public_bytes]|e] rng'];
    reflexivity.
Qed.

(** An algorithm other than RSA is not a registered key-pair algorithm, and
    is reported as InvalidField. *)
Lemma create_asymmetric_key_pair_unsupported (algorithm : CryptographicAlgorithm)
    (length : Z) (rng : Entropy) :
  algorithm <> RSA ->
  exists msg,
    result (create_asymmetric_key_pair backend algorithm length) rng
    = Raise (InvalidField msg).
Proof.
  intros Hne. unfold create_asymmetric_key_pair, _asymmetric_key_algorithms. simpl.
  rewrite lookup_insert_ne by done. rewrite lookup_empty. eexists. reflexivity.
Qed.

End KeyPairs.

(** ** Key derivation *)

Lemma expand_blocks_length (hmac : bytes -> bytes) (info : bytes) (digest_size : Z)
    (rounds : nat) (previous : bytes) (counter : Z) :
  (forall x, len (hmac x) = digest_size) ->
  len (concat (hkdf._expand_blocks hmac info rounds previous counter))
  = Z.of_nat rounds * digest_size.
Proof.
  intros Hsize. revert previous counter.
  induction rounds as [|rounds IH]; intros previous counter; simpl.
  - reflexivity.
  - rewrite len_app, IH, Hsize. lia.
Qed.

Lemma rounds_cover (digest_size length : Z) :
  0 < digest_size -> 0 <= length ->
  length <= Z.of_nat (hkdf._rounds digest_size length) * digest_size.
Proof.
  intros Hd Hl. unfold hkdf._rounds.
  assert (Hq : 0 <= (length + digest_size - 1) / digest_size)
    by (apply Z.div_pos; lia).
  rewrite Z2Nat.id by exact Hq.
  pose proof (Z.div_mod (length + digest_size - 1) digest_size ltac:(lia)) as Hdm.
  pose proof (Z.mod_pos_bound (length + digest_size - 1) digest_size Hd). nia.
Qed.


Section KeyDerivation.

Variable backend : Backend.

(** C7. [derive_key] with method HASH and a registered hash: derivation data
    and key material both given, or neither given, is an InvalidField; exactly
    one of them given returns the digest of that buffer, which has the digest
    size of the hash whatever the requested derivation length. The assumption
    is that the backend's digests have the size the hash class declares. *)
Theorem derive_key_hash
    (derivation_length : Z) (derivation_data key_material : option bytes)
    (ha : HashingAlgorithm) (h : hashes.class) (salt : option bytes)
    (iteration_count : option Z) (ea : option CryptographicAlgorithm)
    (cm : option BlockCipherMode) (pm : option PaddingMethod) (iv : option bytes)
    (rng : Entropy) :
  digest_has_declared_size backend ->
  _encryption_hash_algorithms !! ha = Some h ->
  match derivation_data, key_material with
  | Some _, Some _ | None, None =>
      exists msg,
        result (derive_key backend HASH derivation_length derivation_data key_material
                  (Some ha) salt iteration_count ea cm pm iv) rng
        = Raise (InvalidField msg)
  | Some buffer, None | None, Some buffer =>
      result (derive_key backend HASH derivation_length derivation_data key_material
                (Some ha) salt iteration_count ea cm pm iv) rng
      = Return (hash_digest backend h buffer)
      /\ len (hash_digest backend h buffer) = hashes.digest_size h
  end.
Proof.
  intros Hsize Hh. unfold derive_key. simpl. rewrite Hh.
  destruct derivation_data, key_material; simpl; eauto.
Qed.

(** C8. [derive_key] with method ENCRYPT is [encrypt] called with the
    encryption algorithm, mode, padding method and IV, the key material as
    key and the derivation data as plain text, and returns the cipher text
    alone: the result has no place for an IV, generated or not. *)
Theorem derive_key_encrypt
    (derivation_length : Z) (derivation_data key_material : option bytes)
    (ha : option HashingAlgorithm) (salt : option bytes)
    (iteration_count : option Z) (ea : option CryptographicAlgorithm)
    (cm : option BlockCipherMode) (pm : option PaddingMethod) (iv : option bytes)
    (rng : Entropy) :
  result (derive_key backend ENCRYPT derivation_length derivation_data key_material
            ha salt iteration_count ea cm pm iv) rng
  = cipher_text <$> result (encrypt backend ea key_material derivation_data cm pm iv) rng.
Proof.
  unfold derive_key. simpl. unfold_eng.
  destruct (encrypt backend ea key_material derivation_data cm pm iv rng) as [[r|e] rng'];
    reflexivity.
Qed.


(** Outside method ENCRYPT a missing or unregistered hash is an InvalidField,
    whatever the method and the other arguments. *)
Theorem derive_key_hash_required
    (method : DerivationMethod) (derivation_length : Z)
    (derivation_data key_material : option bytes)
    (ha : option HashingAlgorithm) (salt : option bytes)
    (iteration_count : option Z) (ea : option CryptographicAlgorithm)
    (cm : option BlockCipherMode) (pm : option PaddingMethod) (iv : option bytes)
    (rng : Entropy) :
  method <> ENCRYPT ->
  ha ≫= (_encryption_hash_algorithms !!.) = None ->
  exists msg,
    result (derive_key backend method derivation_length derivation_data key_material
              ha salt iteration_count ea cm pm iv) rng
    = Raise (InvalidField msg).
Proof.
  intros Hm Hh. unfold derive_key. rewrite decide_False by done.
  destruct ha as [ha|]; simpl in Hh; [rewrite Hh|]; eexists; reflexivity.
Qed.

(** With method PBKDF2 and a registered hash, a missing salt or a missing
    iteration count is an InvalidField. *)
Theorem derive_key_pbkdf2_requires_salt_and_iterations
    (derivation_length : Z) (derivation_data key_material : option bytes)
    (ha : HashingAlgorithm) (h : hashes.class) (salt : option bytes)
    (iteration_count : option Z) (ea : option CryptographicAlgorithm)
    (cm : option BlockCipherMode) (pm : option PaddingMethod) (iv : option bytes)
    (rng : Entropy) :
  _encryption_hash_algorithms !! ha = Some h ->
  salt = None \/ iteration_count = None ->
  exists msg,
    result (derive_key backend PBKDF2 derivation_length derivation_data key_material
              (Some ha) salt iteration_count ea cm pm iv) rng
    = Raise (InvalidField msg).
Proof.
  intros Hh Hmissing. unfold derive_key. simpl. rewrite Hh.
  destruct salt, iteration_count, Hmissing; try discriminate; eexists; reflexivity.
Qed.

End KeyDerivation.


Lemma roundtrip_padded_mode_pads_twice_witness :
  exists pad1 pad2,
    decrypt reference.backend (Some AES) (Some key16) (Some (cipher_text encrypted_abc))
      (Some CBC) (Some PKCS5) (iv_nonce encrypted_abc)
    = Return (abc ++ pad1 ++ pad2)
    /\ 1 <= len pad1 /\ 1 <= len pad2
    /\ decrypt reference.backend (Some AES) (Some key16) (Some (cipher_text encrypted_abc))
         (Some CBC) (Some PKCS5) (iv_nonce encrypted_abc)
       <> Return abc.
Proof.
  apply (roundtrip_padded_mode_pads_twice reference.backend AES (Some key16) abc CBC
           (Some PKCS5) reference.counting encrypted_abc).
  - exact reference_decrypt_inverts_encrypt.
  - left. reflexivity.
  - vm_compute. reflexivity.
Defined.

Lemma decrypt_padded_mode_appends_padding_witness :
  exists cipher decrypted block_size,
    cipher_decrypt reference.backend cipher (Some block16) = Return decrypted
    /\ algorithms.block_size (algorithms.cls (ciphers.algorithm cipher)) = Return block_size
    /\ decrypted_block
       = decrypted
         ++ symmetric_padding._padding symmetric_padding.PKCS7
              (pad_size (block_size / 8) (len decrypted))
    /\ len decrypted < len decrypted_block.
Proof.
  apply (decrypt_padded_mode_appends_padding reference.backend (Some AES) (Some key16)
           (Some block16) CBC PKCS5 symmetric_padding.PKCS7 (Some iv16) decrypted_block).
  - left. reflexivity.
  - reflexivity.
  - vm_compute. reflexivity.
Defined.

Lemma encrypt_iv_nonce_generated_iff_absent_witness :
  (is_Some (iv_nonce encrypted_abc) <-> (None : option bytes) = None)
  /\ exists a used text,
      algorithms.new algorithms.AES (Some key16) = Return a
      /\ cipher_encrypt reference.backend
           {| ciphers.algorithm := a;
              ciphers.mode := Some {| modes.cls := modes.CBC; modes.iv_nonce := Some used |} |}
           text = Return (cipher_text encrypted_abc)
      /\ exists block_size,
           algorithms.block_size algorithms.AES = Return block_size
           /\ used = map reference.counting (seq 0 (Z.to_nat (block_size / 8)))
           /\ iv_nonce encrypted_abc = Some used
           /\ len used = block_size / 8
           /\ len used * 8 = block_size.
Proof.
  apply (encrypt_iv_nonce_generated_iff_absent reference.backend AES algorithms.AES
           (Some key16) (Some abc) CBC modes.CBC (Some PKCS5) None reference.counting
           encrypted_abc).
  - reflexivity.
  - discriminate.
  - reflexivity.
  - reflexivity.
  - vm_compute. reflexivity.
Defined.





Lemma derive_key_hash_witness :
  result (derive_key reference.backend HASH 1000 (Some abc) None (Some MD5) None None
            None None None None) reference.counting
  = Return (hash_digest reference.backend hashes.MD5 abc)
  /\ len (hash_digest reference.backend hashes.MD5 abc) = hashes.digest_size hashes.MD5.
Proof.
  apply (derive_key_hash reference.backend 1000 (Some abc) None MD5 hashes.MD5 None None
           None None None None reference.counting).
  - exact reference_digest_has_declared_size.
  - reflexivity.
Defined.



(** The failing input of C4 on the reference backend, whose generator refuses
    a key size of 0 as the library's does. *)
Lemma create_asymmetric_key_pair_rsa_refused_length :
  result (create_asymmetric_key_pair reference.backend RSA 0) reference.counting
  = Raise (CryptographicFailure
      "An error occurred while generating the RSA key pair. See the server log for more information.").
Proof. vm_compute. reflexivity. Qed.

Lemma roundtrip_unpadded_mode_witness :
  decrypt reference.backend (Some AES) (Some key16) (Some (cipher_text encrypted_abc_ctr))
    (Some CTR) None (iv_nonce encrypted_abc_ctr)
  = Return abc.
Proof.
  apply (roundtrip_unpadded_mode reference.backend AES (Some key16) abc (Some CTR) None
           reference.counting encrypted_abc_ctr).
  - exact reference_decrypt_inverts_encrypt.
  - discriminate.
  - discriminate.
  - vm_compute. reflexivity.
Defined.

Lemma handle_symmetric_padding_undo_witness :
  _handle_symmetric_padding algorithms.AES
    (Some (abc ++ byte_times (byte_of_Z 13) 13)) (Some PKCS5) true
  = Return abc.
Proof.
  apply (handle_symmetric_padding_undo algorithms.AES 128 PKCS5 symmetric_padding.PKCS7 abc).
  - reflexivity.
  - reflexivity.
  - vm_compute. reflexivity.
Defined.

Lemma derive_key_hash_required_witness :
  exists msg,
    result (derive_key reference.backend HMAC 16 None (Some abc) (Some WHIRLPOOL) None None
              None None None None) reference.counting
    = Raise (InvalidField msg).
Proof.
  apply (derive_key_hash_required reference.backend HMAC 16 None (Some abc)
           (Some WHIRLPOOL) None None None None None None reference.counting).
  - discriminate.
  - reflexivity.
Defined.

Lemma derive_key_pbkdf2_requires_salt_and_iterations_witness :
  exists msg,
    result (derive_key reference.backend PBKDF2 16 None (Some abc) (Some SHA_256)
              (Some key16) None None None None None) reference.counting
    = Raise (InvalidField msg).
Proof.
  apply (derive_key_pbkdf2_requires_salt_and_iterations reference.backend 16 None
           (Some abc) SHA_256 hashes.SHA256 (Some key16) None None None None None
           reference.counting).
  - reflexivity.
  - right. reflexivity.
Defined.

(** ** Message authentication *)

(** The algorithms [mac] serves: those of the two registries it consults. *)
Lemma registries_disjoint algorithm c :
  _symmetric_key_algorithms !! algorithm = Some c -> _hash_algorithms !! algorithm = None.
Proof. destruct algorithm; vm_compute; intros H; (reflexivity || discriminate H). Qed.

Section AuthenticationProperties.

Variable backend : Backend.
Variable prims : KeyedPrimitives.

(** [mac] lets no library exception through: when it returns, the algorithm
    is in one of its two registries; when it raises, the exception is
    CryptographicFailure if the algorithm is in one of them and InvalidField
    if it is in neither. *)
Theorem mac_failure_kinds (algorithm : CryptographicAlgorithm) (key data : option bytes) :
  let registered :=
    is_Some (_hash_algorithms !! algorithm)
    \/ is_Some (_symmetric_key_algorithms !! algorithm) in
  match mac backend prims algorithm key data with
  | Return _ => registered
  | Raise e =>
      (registered /\ is_CryptographicFailure e = true)
      \/ (~ registered /\ is_InvalidField e = true)
  end.
Proof.
  cbn zeta. unfold mac, try_except.
  destruct (_hash_algorithms !! algorithm) as [h|] eqn:Hh.
  - destruct (hmac.run backend h key data); [|left; split]; eauto.
  - destruct (_symmetric_key_algorithms !! algorithm) as [c|] eqn:Hc.
    + destruct (algorithms.new c key ≫= _); [|left; split]; eauto.
    + right. split; [|reflexivity]. intros [[? ?]|[? ?]]; discriminate.
Qed.

(** With a registered hash algorithm, a key and data, [mac] returns the HMAC
    tag of the data under the key, of the size the hash declares; the cipher
    registry is not consulted. The assumption is that the backend's HMAC
    tags have the declared size. *)
Theorem mac_hmac_tag (algorithm : CryptographicAlgorithm) (h : hashes.class)
    (key data : bytes) :
  hmac_has_declared_size backend ->
  _hash_algorithms !! algorithm = Some h ->
  mac backend prims algorithm (Some key) (Some data)
  = Return (hmac_digest backend h key data)
  /\ len (hmac_digest backend h key data) = hashes.digest_size h.
Proof.
  intros Hsize Hh. unfold mac. rewrite Hh. split; [reflexivity | apply Hsize].
Qed.

(** With a registered cipher algorithm [mac] computes a CMAC, and fails with
    CryptographicFailure without running it when the key is missing or not of
    a legal size, and when the algorithm is RC4, which is no block cipher. *)
Theorem mac_cmac_refused (algorithm : CryptographicAlgorithm) (c : algorithms.class)
    (key data : option bytes) :
  _symmetric_key_algorithms !! algorithm = Some c ->
  (forall k, key = Some k -> len k * 8 ∉ algorithms.key_sizes c) \/ algorithm = RC4 ->
  mac backend prims algorithm key data
  = Raise (CryptographicFailure
      "An error occurred while computing a CMAC. See the server log for more information.").
Proof.
  intros Hc Hwhy. unfold mac. rewrite (registries_disjoint _ _ Hc), Hc.
  unfold try_except, mbind, outcome_bind.
  destruct (algorithms.new c key) as [a|] eqn:Ha; [|reflexivity].
  destruct Hwhy as [Hkey | ->].
  - exfalso. destruct (algorithms_new_rejects c key Hkey) as [e He]. congruence.
  - rewrite registered_RC4 in Hc. inversion Hc; subst c.
    unfold cmac.run. by rewrite (algorithms_new_cls _ _ _ Ha).
Qed.

(** ** Key wrapping *)

(** [wrap_key] lets no library exception through. It raises InvalidField
    exactly when the wrapping method is not ENCRYPT or the algorithm is not
    NIST_KEY_WRAP, whatever the keys; otherwise it returns what the wrap
    returns and raises CryptographicFailure when the wrap raises. *)
Theorem wrap_key_failure_kinds (key_material : option bytes)
    (wrapping_method : WrappingMethod.t) (key_wrap_algorithm : BlockCipherMode)
    (encryption_key : option bytes) :
  let supported :=
    wrapping_method = WrappingMethod.ENCRYPT /\ key_wrap_algorithm = NIST_KEY_WRAP in
  match wrap_key prims key_material wrapping_method key_wrap_algorithm encryption_key with
  | Return wrapped =>
      supported
      /\ keywrap.aes_key_wrap prims encryption_key key_material = Return wrapped
  | Raise e =>
      (supported /\ is_CryptographicFailure e = true
       /\ exists cause, keywrap.aes_key_wrap prims encryption_key key_material = Raise cause)
      \/ (~ supported /\ is_InvalidField e = true)
  end.
Proof.
  cbn zeta. unfold wrap_key, try_except.
  destruct (decide (wrapping_method = WrappingMethod.ENCRYPT)) as [Hm|Hm].
  - destruct (decide (key_wrap_algorithm = NIST_KEY_WRAP)) as [Ha|Ha].
    + destruct (keywrap.aes_key_wrap prims encryption_key key_material) as [w|cause];
        [|left]; eauto 6.
    + right. split; [tauto | reflexivity].
  - right. split; [tauto | reflexivity].
Qed.

(** A wrapping key that is not 16, 24 or 32 bytes long, or key material that
    is shorter than 16 bytes or not a multiple of 8 bytes, is refused before
    the wrap runs: [wrap_key] raises CryptographicFailure with the text of
    the library's [ValueError]. *)
Theorem wrap_key_malformed_sizes (key_material encryption_key : bytes) :
  len encryption_key ∉ [16; 24; 32]
  \/ len key_material < 16 \/ len key_material mod 8 ≠ 0 ->
  wrap_key prims (Some key_material) WrappingMethod.ENCRYPT NIST_KEY_WRAP
    (Some encryption_key)
  = Raise (CryptographicFailure (str prims ValueError)).
Proof.
  intros Hbad. unfold wrap_key, keywrap.aes_key_wrap. simpl.
  destruct (decide (len encryption_key ∉ [16; 24; 32])); [reflexivity|].
  destruct (decide (len key_material < 16)); [reflexivity|].
  destruct (decide (len key_material mod 8 ≠ 0)); [reflexivity|].
  tauto.
Qed.

End AuthenticationProperties.

(** ** More of the cipher pipeline *)

Lemma registered_block_size ea c :
  _symmetric_key_algorithms !! ea = Some c -> ea <> RC4 ->
  exists bs, algorithms.block_size c = Return bs /\ (bs = 64 \/ bs = 128).
Proof.
  intros Hc Hne. pose proof (registered_not_RC4 _ _ Hc Hne).
  destruct c; simpl; eauto; congruence.
Qed.

Section CipherPipelineEdges.

Variable backend : Backend.

(** In CBC and ECB mode [encrypt] always pads: whenever it returns, the text
    it ran the cipher on is the plain text followed by between one byte and
    one block of padding, its length is a whole number of blocks, and a plain
    text that already is a whole number of blocks gets a whole block more. *)
Theorem encrypt_padded_mode_always_pads
    (ea : CryptographicAlgorithm) (key : option bytes) (P : bytes)
    (cm : BlockCipherMode) (pm : option PaddingMethod) (iv : option bytes)
    (rng : Entropy) (r : EncryptResult) :
  cm = CBC \/ cm = ECB ->
  result (encrypt backend (Some ea) key (Some P) (Some cm) pm iv) rng = Return r ->
  exists cipher pad block_size,
    cipher_encrypt backend cipher (Some (P ++ pad)) = Return (cipher_text r)
    /\ algorithms.block_size (algorithms.cls (ciphers.algorithm cipher)) = Return block_size
    /\ 1 <= len pad <= block_size / 8
    /\ len (P ++ pad) mod (block_size / 8) = 0
    /\ (len P mod (block_size / 8) = 0 -> len pad = block_size / 8).
Proof.
  intros Hcm Hrun.
  assert (Hpad : is_padded_mode (Some cm) = true).
  { apply is_padded_mode_true. destruct Hcm; subst; auto. }
  unfold encrypt in Hrun.
  destruct (_symmetric_key_algorithms !! ea) as [c|] eqn:Hc; [|discriminate].
  unfold_eng.
  destruct (algorithms.new c key) as [a|] eqn:Ha; simpl in Hrun; [|discriminate].
  rewrite Hpad in Hrun.
  destruct (decide (ea = RC4)) as [->|Hne].
  { rewrite registered_RC4 in Hc. inversion Hc; subst c. simpl in Hrun.
    destruct (handle_symmetric_padding_ARC4 (Some P) pm false) as [e He].
    rewrite He in Hrun. discriminate. }
  pose proof (algorithms_new_cls _ _ _ Ha) as Hcls.
  destruct (registered_modes_padded cm Hcm) as (m & Hm).
  rewrite Hm in Hrun.
  destruct (pm ≫= (_symmetric_padding_methods !!.)) as [pc|] eqn:Hpm; cycle 1.
  { destruct (handle_symmetric_padding_unsupported c (Some P) pm false Hpm) as [msg Hmsg].
    rewrite Hmsg in Hrun. destruct_outcomes Hrun. }
  destruct pm as [pm|]; [|discriminate]. simpl in Hpm.
  destruct (registered_block_size _ _ Hc Hne) as (bs & Hbs & Hcases).
  assert (Hbb : 0 < bs / 8) by (destruct Hcases as [-> | ->]; reflexivity).
  rewrite (handle_symmetric_padding_pads c bs pm pc P Hbs Hpm) in Hrun.
  set (pad := symmetric_padding._padding pc (pad_size (bs / 8) (len P))) in *.
  assert (Hl : len pad = pad_size (bs / 8) (len P))
    by (apply len_padding, pad_size_bounds, Hbb).
  pose proof (pad_size_bounds (bs / 8) (len P) Hbb) as Hbounds.
  assert (exists cipher,
            cipher_encrypt backend cipher (Some (P ++ pad)) = Return (cipher_text r)
            /\ ciphers.algorithm cipher = a) as (cipher & Henc & Halg).
  { destruct (modes.has_initialization_vector m || modes.has_nonce m);
      [destruct iv as [v|]|]; simpl in Hrun.
    - destruct (ciphers.new a _) as [cipher|] eqn:Hcipher; simpl in Hrun; [|discriminate].
      destruct (cipher_encrypt backend cipher _) as [encrypted|] eqn:Henc;
        simpl in Hrun; [|discriminate].
      inversion Hrun; subst r. exists cipher. split; [exact Henc|].
      by rewrite (ciphers_new_inv _ _ _ Hcipher).
    - destruct_outcomes Hrun.
      all: match goal with
           | H : ciphers.new _ _ = Return ?cipher |- _ =>
               exists cipher; rewrite (ciphers_new_inv _ _ _ H) in *
           end.
      all: inversion Hrun; subst r; split; [eassumption | reflexivity].
    - destruct (cipher_encrypt backend _ _) as [encrypted|] eqn:Henc;
        simpl in Hrun; [|discriminate].
      inversion Hrun; subst r. eexists. split; [exact Henc | reflexivity]. }
  exists cipher, pad, bs. rewrite Halg, Hcls.
  split; [exact Henc|]. split; [exact Hbs|]. split; [lia|]. split.
  - rewrite len_app, Hl. by apply pad_size_aligned.
  - intros Haligned. rewrite Hl. unfold pad_size. rewrite Haligned. lia.
Qed.

(** RC4 and ECB take no IV: [encrypt] and [decrypt] then do not look at
    [iv_nonce]; [encrypt] draws no random bytes and returns no IV. *)
Theorem without_iv_mode_ignores_iv
    (ea : option CryptographicAlgorithm) (key text : option bytes)
    (cm : option BlockCipherMode) (pm : option PaddingMethod) (iv : option bytes)
    (rng : Entropy) :
  ea = Some RC4 \/ cm = Some ECB ->
  encrypt backend ea key text cm pm iv rng = encrypt backend ea key text cm pm None rng
  /\ snd (encrypt backend ea key text cm pm iv rng) = rng
  /\ (forall r, result (encrypt backend ea key text cm pm iv) rng = Return r ->
      iv_nonce r = None)
  /\ decrypt backend ea key text cm pm iv = decrypt backend ea key text cm pm None.
Proof.
  intros Hwhy.
  assert (Hmode : forall e : CryptographicAlgorithm,
             ea = Some e -> e = RC4 \/ (e <> RC4 /\ cm = Some ECB)).
  { intros e ->. destruct (decide (e = RC4)); [by left|].
    right. destruct Hwhy as [H|H]; [congruence | done]. }
  unfold encrypt, decrypt, result.
  destruct ea as [e|]; [|by repeat split].
  destruct (_symmetric_key_algorithms !! e) as [c|] eqn:Hc; [|by repeat split].
  unfold_eng.
  destruct (algorithms.new c key) as [a|] eqn:Ha; simpl; [|by repeat split].
  destruct (Hmode e eq_refl) as [->|[Hne ->]].
  - destruct (decide (RC4 = RC4)); [|done]. simpl.
    destruct (is_padded_mode cm); simpl.
    + destruct (_handle_symmetric_padding c text pm false); simpl; [|by repeat split].
      destruct (cipher_encrypt backend _ _); simpl; repeat split; try done.
      all: intros r Hr; inversion Hr; reflexivity.
    + destruct (cipher_encrypt backend _ _); simpl; repeat split; try done.
      all: intros r Hr; inversion Hr; reflexivity.
  - destruct (decide (e = RC4)); [done|].
    change (_modes !! ECB) with (Some modes.ECB). simpl.
    change (is_padded_mode (Some ECB)) with true. simpl.
    destruct (_handle_symmetric_padding c text pm false); simpl; [|by repeat split].
    destruct (cipher_encrypt backend _ _); simpl; repeat split; try done.
    all: intros r Hr; inversion Hr; reflexivity.
Qed.



End CipherPipelineEdges.

(** ** Unpadding what is no padded text *)

(** With [undo_padding], a text that is empty or not a whole number of blocks
    long is refused with the library's [ValueError]. *)
Theorem handle_symmetric_padding_undo_misaligned c bs pm pc (text : bytes) :
  algorithms.block_size c = Return bs ->
  _symmetric_padding_methods !! pm = Some pc ->
  text = [] \/ len text mod (bs / 8) <> 0 ->
  _handle_symmetric_padding c (Some text) (Some pm) true = Raise ValueError.
Proof.
  intros Hbs Hpm Hbad.
  destruct (block_size_cases _ _ Hbs) as [_ Hcases].
  assert (Hbb : 0 < bs / 8) by (destruct Hcases as [-> | ->]; reflexivity).
  assert (Hnew : symmetric_padding.new pc bs
                 = Return {| symmetric_padding.cls := pc; symmetric_padding.block_size := bs |}).
  { unfold symmetric_padding.new. destruct Hcases as [-> | ->]; reflexivity. }
  unfold _handle_symmetric_padding. simpl. rewrite Hpm, Hbs. simpl. rewrite Hnew. simpl.
  unfold symmetric_padding.unpadder_update, symmetric_padding.unpadder,
    symmetric_padding._byte_unpadding_update, symmetric_padding.unpadder_finalize,
    symmetric_padding._byte_unpadding_check. simpl.
  set (bb := bs / 8) in *.
  rewrite decide_False by lia. simpl. fold bb.
  set (fb := Z.max (len text / bb - 1) 0).
  pose proof (len_nonneg text) as Htext.
  pose proof (Z.div_mod (len text) bb ltac:(lia)) as Hdm.
  pose proof (Z.mod_pos_bound (len text) bb Hbb) as Hmod.
  assert (Hq : 0 <= len text / bb) by (apply Z.div_pos; lia).
  assert (Hbuf : len (slice_from (fb * bb) text) <> bb).
  { unfold slice_from, len at 1. rewrite length_drop.
    destruct (decide (len text / bb = 0)) as [Hz|Hnz].
    - assert (Hfb : fb = 0) by (subst fb; lia). rewrite Hfb. simpl.
      rewrite Hz in Hdm.
      destruct Hbad as [-> | Hbad]; [simpl; lia|]. unfold len in *. lia.
    - assert (Hfb : fb = len text / bb - 1) by (subst fb; lia).
      destruct Hbad as [-> | Hbad]; [simpl in Hnz; by rewrite Z.div_0_l in Hnz by lia|].
      rewrite Hfb. unfold len in *. nia. }
  by rewrite decide_True.
Qed.

(** ** RC4 in a padded mode *)


(** ** Derived keys of different lengths *)

Lemma expand_blocks_app (hmac : bytes -> bytes) (info : bytes) (n d : nat)
    (previous : bytes) (counter : Z) :
  exists rest,
    hkdf._expand_blocks hmac info (n + d) previous counter
    = hkdf._expand_blocks hmac info n previous counter ++ rest.
Proof.
  revert previous counter. induction n as [|n IH]; intros previous counter; simpl.
  - eauto.
  - destruct (IH (hmac (previous ++ info ++ [byte_of_Z counter])) (counter + 1))
      as [rest Hrest].
    exists rest. by rewrite Hrest.
Qed.

Lemma rounds_monotone (digest_size l1 l2 : Z) :
  0 < digest_size -> l1 <= l2 ->
  (hkdf._rounds digest_size l1 <= hkdf._rounds digest_size l2)%nat.
Proof.
  intros Hd Hl. unfold hkdf._rounds.
  assert ((l1 + digest_size - 1) / digest_size <= (l2 + digest_size - 1) / digest_size)
    by (apply Z.div_le_mono; lia).
  lia.
Qed.

(** With method HMAC a shorter derived key is the beginning of a longer one:
    when [derive_key] returns for a length, it returns for every shorter
    non-negative length, and what it returns is the first bytes of the longer
    result. The assumption is that HMAC tags have the size the hash declares. *)
Theorem derive_key_hmac_prefix (backend : Backend)
    (shorter longer : Z) (derivation_data key_material : option bytes)
    (ha : HashingAlgorithm) (h : hashes.class) (salt : option bytes)
    (iteration_count : option Z) (ea : option CryptographicAlgorithm)
    (cm : option BlockCipherMode) (pm : option PaddingMethod) (iv : option bytes)
    (rng : Entropy) (derived : bytes) :
  hmac_has_declared_size backend ->
  _encryption_hash_algorithms !! ha = Some h ->
  0 <= shorter <= longer ->
  result (derive_key backend HMAC longer derivation_data key_material (Some ha) salt
            iteration_count ea cm pm iv) rng = Return derived ->
  result (derive_key backend HMAC shorter derivation_data key_material (Some ha) salt
            iteration_count ea cm pm iv) rng = Return (slice_to shorter derived).
Proof.
  intros Hsize Hh Hl. unfold derive_key. simpl. rewrite Hh.
  unfold result, lift, hkdf.derive. simpl.
  destruct (decide (longer > 255 * hashes.digest_size h)); [discriminate|].
  destruct key_material as [k|]; [|discriminate].
  intros Hlong. inversion Hlong; subst derived; clear Hlong.
  rewrite decide_False by lia. f_equal.
  set (ds := hashes.digest_size h).
  assert (Hds : 0 < ds) by (subst ds; by destruct h).
  set (f := hmac_digest backend h _).
  set (info := default [] derivation_data).
  pose proof (rounds_monotone ds shorter longer Hds ltac:(lia)) as Hmono.
  destruct (expand_blocks_app f info (hkdf._rounds ds shorter)
              (hkdf._rounds ds longer - hkdf._rounds ds shorter) [] 1) as [rest Hrest].
  replace (hkdf._rounds ds shorter + (hkdf._rounds ds longer - hkdf._rounds ds shorter))%nat
    with (hkdf._rounds ds longer) in Hrest by lia.
  rewrite Hrest, concat_app. unfold slice_to.
  rewrite take_take, Nat.min_l by lia.
  symmetry. apply take_app_le.
  pose proof (expand_blocks_length f info ds (hkdf._rounds ds shorter) [] 1
                ltac:(intros x; apply Hsize)) as Hlen.
  pose proof (rounds_cover ds shorter Hds ltac:(lia)).
  unfold len in Hlen. lia.
Qed.

(** ** Successive keys *)

Lemma map_seq_offset {A} (f : nat -> A) (k s n : nat) :
  map (fun i => f (k + i)%nat) (seq s n) = map f (seq (k + s) n).
Proof.
  revert s. induction n as [|n IH]; intros s; simpl; [reflexivity|].
  f_equal. rewrite IH. by rewrite Nat.add_succ_r.
Qed.

(** What [create_symmetric_key] does for a pair of the capability set: it
    returns the next [length / 8] bytes of entropy as they are and leaves the
    entropy after them. *)
Lemma create_symmetric_key_draws (algorithm : CryptographicAlgorithm) (length : Z)
    (rng : Entropy) :
  symmetric_capability algorithm length ->
  create_symmetric_key algorithm length rng
  = (Return {| value := map rng (seq 0 (Z.to_nat (length / 8)));
               format := RAW; public_exponent := None |},
     fun i => rng (Z.to_nat (length / 8) + i)%nat)
  /\ 0 <= length / 8 /\ length mod 8 = 0.
Proof.
  intros (c & Hc & Hin).
  destruct (key_sizes_whole_bytes _ _ Hin) as [Hpos Hmod].
  assert (Hn : 0 <= length / 8) by (apply Z.div_pos; lia).
  destruct (os_urandom_returns (length / 8) rng Hn) as [Hrun Hlen].
  destruct (algorithms_new_accepts c length _ Hin Hlen) as (a & Ha & _).
  split; [|done].
  unfold create_symmetric_key. rewrite Hc.
  rewrite decide_False by (intros Hn'; by apply Hn').
  unfold_eng. rewrite Hrun, Ha. reflexivity.
Qed.

(** Two keys generated one after the other are consecutive stretches of the
    entropy: together they are its first [(length1 + length2) / 8] bytes, so
    no byte is used for both. *)
Theorem create_symmetric_key_successive
    (algorithm1 algorithm2 : CryptographicAlgorithm) (length1 length2 : Z)
    (rng : Entropy) :
  symmetric_capability algorithm1 length1 ->
  symmetric_capability algorithm2 length2 ->
  exists key1 key2,
    result (key1 ← create_symmetric_key algorithm1 length1;
            key2 ← create_symmetric_key algorithm2 length2;
            mret (value key1, value key2)) rng
    = Return (key1, key2)
    /\ len key1 = length1 / 8 /\ len key2 = length2 / 8
    /\ key1 ++ key2 = map rng (seq 0 (Z.to_nat ((length1 + length2) / 8))).
Proof.
  intros H1 H2.
  destruct (create_symmetric_key_draws algorithm1 length1 rng H1) as (Hrun1 & Hn1 & Hm1).
  set (rng' := fun i => rng (Z.to_nat (length1 / 8) + i)%nat) in *.
  destruct (create_symmetric_key_draws algorithm2 length2 rng' H2) as (Hrun2 & Hn2 & Hm2).
  eexists. eexists. split; [|split; [|split]].
  - unfold result, mbind, Eng_bind. rewrite Hrun1, Hrun2. reflexivity.
  - unfold len. simpl. rewrite length_map, length_seq. lia.
  - unfold len. simpl. rewrite length_map, length_seq. lia.
  - simpl.
    assert (Hsum : (length1 + length2) / 8 = length1 / 8 + length2 / 8).
    { rewrite (Z.div_mod length1 8) at 1 by lia.
      rewrite (Z.div_mod length2 8) at 1 by lia.
      rewrite Hm1, Hm2.
      replace (8 * (length1 / 8) + 0 + (8 * (length2 / 8) + 0))
        with ((length1 / 8 + length2 / 8) * 8) by lia.
      apply Z.div_mul. lia. }
    rewrite Hsum, Z2Nat.inj_add by lia.
    rewrite seq_app, map_app. f_equal. simpl.
    unfold rng'. rewrite map_seq_offset. by rewrite Nat.add_0_r.
Qed.

(** ** Instances of the further properties *)

Lemma mac_cmac_refused_witness :
  mac reference.backend reference_keyed.prims RC4 (Some key16) (Some abc)
  = Raise (CryptographicFailure
      "An error occurred while computing a CMAC. See the server log for more information.")
  /\ mac reference.backend reference_keyed.prims AES (Some abc) (Some abc)
     = Raise (CryptographicFailure
         "An error occurred while computing a CMAC. See the server log for more information.").
Proof.
  split.
  - apply (mac_cmac_refused reference.backend reference_keyed.prims RC4 algorithms.ARC4
             (Some key16) (Some abc)).
    + reflexivity.
    + right. reflexivity.
  - apply (mac_cmac_refused reference.backend reference_keyed.prims AES algorithms.AES
             (Some abc) (Some abc)).
    + reflexivity.
    + left. intros k Hk. inversion Hk; subst k.
      apply (bool_decide_unpack _). vm_compute. exact I.
Defined.

Lemma wrap_key_malformed_sizes_witness :
  wrap_key reference_keyed.prims (Some abc) WrappingMethod.ENCRYPT NIST_KEY_WRAP
    (Some key16)
  = Raise (CryptographicFailure (str reference_keyed.prims ValueError)).
Proof.
  apply (wrap_key_malformed_sizes reference_keyed.prims abc key16).
  right. left. vm_compute. reflexivity.
Defined.

Lemma encrypt_padded_mode_always_pads_witness :
  exists cipher pad block_size,
    cipher_encrypt reference.backend cipher (Some (abc ++ pad))
    = Return (cipher_text encrypted_abc)
    /\ algorithms.block_size (algorithms.cls (ciphers.algorithm cipher)) = Return block_size
    /\ 1 <= len pad <= block_size / 8
    /\ len (abc ++ pad) mod (block_size / 8) = 0
    /\ (len abc mod (block_size / 8) = 0 -> len pad = block_size / 8).
Proof.
  apply (encrypt_padded_mode_always_pads reference.backend AES (Some key16) abc CBC
           (Some PKCS5) None reference.counting encrypted_abc).
  - left. reflexivity.
  - vm_compute. reflexivity.
Defined.

Lemma without_iv_mode_ignores_iv_witness :
  encrypt reference.backend (Some AES) (Some key16) (Some abc) (Some ECB) (Some PKCS5)
    (Some iv16) reference.counting
  = encrypt reference.backend (Some AES) (Some key16) (Some abc) (Some ECB) (Some PKCS5)
      None reference.counting
  /\ snd (encrypt reference.backend (Some AES) (Some key16) (Some abc) (Some ECB)
            (Some PKCS5) (Some iv16) reference.counting) = reference.counting
  /\ (forall r,
        result (encrypt reference.backend (Some AES) (Some key16) (Some abc) (Some ECB)
                  (Some PKCS5) (Some iv16)) reference.counting = Return r ->
        iv_nonce r = None)
  /\ decrypt reference.backend (Some AES) (Some key16) (Some abc) (Some ECB) (Some PKCS5)
       (Some iv16)
     = decrypt reference.backend (Some AES) (Some key16) (Some abc) (Some ECB)
         (Some PKCS5) None.
Proof.
  apply (without_iv_mode_ignores_iv reference.backend (Some AES) (Some key16) (Some abc)
           (Some ECB) (Some PKCS5) (Some iv16) reference.counting).
  right. reflexivity.
Defined.



Lemma handle_symmetric_padding_undo_misaligned_witness :
  _handle_symmetric_padding algorithms.AES (Some abc) (Some PKCS5) true = Raise ValueError.
Proof.
  apply (handle_symmetric_padding_undo_misaligned algorithms.AES 128 PKCS5
           symmetric_padding.PKCS7 abc).
  - reflexivity.
  - reflexivity.
  - right. vm_compute. discriminate.
Defined.


Lemma derive_key_hmac_prefix_witness :
  result (derive_key reference.backend HMAC 20 None (Some abc) (Some MD5) None None
            None None None None) reference.counting
  = Return (slice_to 20 derived40).
Proof.
  apply (derive_key_hmac_prefix reference.backend 20 40 None (Some abc) MD5 hashes.MD5
           None None None None None None reference.counting derived40).
  - exact reference_hmac_has_declared_size.
  - reflexivity.
  - lia.
  - vm_compute. reflexivity.
Defined.

Lemma create_symmetric_key_successive_witness :
  exists key1 key2,
    result (key1 ← create_symmetric_key AES 128;
            key2 ← create_symmetric_key TRIPLE_DES 192;
            mret (value key1, value key2)) reference.counting
    = Return (key1, key2)
    /\ len key1 = 128 / 8 /\ len key2 = 192 / 8
    /\ key1 ++ key2 = map reference.counting (seq 0 (Z.to_nat ((128 + 192) / 8))).
Proof.
  apply (create_symmetric_key_successive AES TRIPLE_DES 128 192 reference.counting).
  - exists algorithms.AES. split; [reflexivity|].
    apply (bool_decide_unpack _). vm_compute. exact I.
  - exists algorithms.TripleDES. split; [reflexivity|].
    apply (bool_decide_unpack _). vm_compute. exact I.
Defined.
